(** * MovieSeat API: seat reservation handlers of [server.js]

    A shallow embedding of the Express handlers of [server.js] and the
    properties of the seat-reservation engine they implement.

    The two JSON files ([movies.json], [bookings.json]) are the state: every
    handler reads them, works on the parsed values and writes them back, so a
    handler is a function from the store to a response and a store.  Values
    that come from a request body or a query string are JSON values of any
    shape; the handlers test them with JavaScript truthiness, [Array.isArray]
    and strict equality, which are modelled as such. *)

From Stdlib Require Import ZArith Ascii String List Bool Lia.
From stdpp Require Import base tactics option list strings pretty.

#[local] Set Warnings "-register-all".

Local Open Scope Z_scope.
Local Open Scope string_scope.
Local Open Scope list_scope.

(** ** JSON values as JavaScript sees them *)

(** [JUndefined] is what destructuring gives for a field that is absent.
    Numbers are restricted to integers: the handlers only test a number for
    truthiness and compare it with strings. *)
Inductive jsval : Type :=
| JUndefined
| JNull
| JBool (b : bool)
| JNum (n : Z)
| JStr (s : string)
| JArr (items : list jsval)
| JObj (fields : list (string * jsval)).

(** [!!v] *)
Definition truthy (v : jsval) : bool :=
  match v with
  | JUndefined | JNull => false
  | JBool b => b
  | JNum n => negb (n =? 0)%Z
  | JStr s => negb (s =? "")%string
  | JArr _ | JObj _ => true
  end.

(** [Array.isArray(v)] *)
Definition isArray (v : jsval) : bool :=
  match v with JArr _ => true | _ => false end.

(** [s === v] where the left operand is a string of the catalog: strict
    equality never converts, so only an equal string matches. *)
Definition strictEq (s : string) (v : jsval) : bool :=
  match v with JStr t => (s =? t)%string | _ => false end.

(** [v || ''] *)
Definition orEmpty (v : jsval) : jsval := if truthy v then v else JStr "".

(** ** The persisted data *)

Module Seat.
Record t := mk { id : string; status : string }.
Definition withStatus (st : string) (x : t) : t := mk (id x) st.
End Seat.

Module Showtime.
Record t := mk { id : string; time : string; seats : list Seat.t }.
Definition withSeats (f : list Seat.t -> list Seat.t) (x : t) : t :=
  mk (id x) (time x) (f (seats x)).
End Showtime.

Module Movie.
Record t := mk
  { id : string; title : string; duration : Z; showtimes : list Showtime.t }.
Definition withShowtimes (f : list Showtime.t -> list Showtime.t) (x : t) : t :=
  mk (id x) (title x) (duration x) (f (showtimes x)).
End Movie.

(** A booking stores the request's fields as they came. *)
Module Booking.
Record t := mk
  { id : string; customerName : jsval; movieId : string;
    showtimeId : jsval; seats : list jsval }.
End Booking.

(** The contents of [movies.json] and [bookings.json]. *)
Record store := Store { movies : list Movie.t; bookings : list Booking.t }.

(** ** Array helpers *)

(** [l.findIndex(p)], with [None] for -1. *)
Fixpoint findIndex {A} (p : A -> bool) (l : list A) : option nat :=
  match l with
  | [] => None
  | x :: r => if p x then Some 0%nat else S <$> findIndex p r
  end.

(** [l.find(p)] returns the element itself, not a copy: an assignment to a
    field of the result changes the array.  [updateFirst p f l] is the array
    after [f] has been applied through that alias. *)
Fixpoint updateFirst {A} (p : A -> bool) (f : A -> A) (l : list A) : list A :=
  match l with
  | [] => []
  | x :: r => if p x then f x :: r else x :: updateFirst p f r
  end.

(** ** Strings *)

(** [toLowerCase] on ASCII text; the model's strings are byte strings. *)
Definition lowerAscii (c : ascii) : ascii :=
  let n := N_of_ascii c in
  if ((65 <=? n) && (n <=? 90))%N then ascii_of_N (n + 32) else c.

Fixpoint toLowerCase (s : string) : string :=
  match s with
  | EmptyString => EmptyString
  | String c r => String (lowerAscii c) (toLowerCase r)
  end.

(** [s.includes(q)] *)
Fixpoint includes (q s : string) : bool :=
  String.prefix q s ||
  match s with
  | EmptyString => false
  | String _ r => includes q r
  end.

(** ** Requests and responses *)

(** The body of [POST /api/bookings] after destructuring. *)
Record bookingRequest := BookingRequest
  { customerName : jsval; showtimeId : jsval; seats : jsval }.

Inductive response : Type :=
| InvalidRequest                       (* 400 invalid_request *)
| ShowtimeNotFound                     (* 404 showtime_not_found *)
| SeatsUnavailable (ids : list jsval)  (* 409 seats_unavailable *)
| Booked (b : Booking.t)               (* 201 booked *)
| BookingList (bs : list Booking.t)    (* 200, GET /api/bookings *)
| BookingNotFound                      (* 404 booking_not_found *)
| Canceled (id : string)               (* 200 canceled *)
| Threw.                               (* the handler raised a TypeError *)

Definition statusCode (r : response) : option Z :=
  match r with
  | InvalidRequest => Some 400
  | ShowtimeNotFound | BookingNotFound => Some 404
  | SeatsUnavailable _ => Some 409
  | Booked _ => Some 201
  | BookingList _ | Canceled _ => Some 200
  | Threw => None
  end.

(** ** POST /api/bookings *)

(** The loop over the movies: the first movie that has a showtime with the
    requested id, and the first such showtime in it. *)
Fixpoint findShowtime (showtimeId : jsval) (ms : list Movie.t)
  : option (Movie.t * Showtime.t) :=
  match ms with
  | [] => None
  | m :: rest =>
      match List.find (fun x => strictEq (Showtime.id x) showtimeId)
                      (Movie.showtimes m) with
      | Some s => Some (m, s)
      | None => findShowtime showtimeId rest
      end
  end.

(** The callback of the availability filter. *)
Definition seatUnavailable (showtime : Showtime.t) (seatId : jsval) : bool :=
  match List.find (fun x => strictEq (Seat.id x) seatId)
                  (Showtime.seats showtime) with
  | None => true
  | Some seat => negb (Seat.status seat =? "available")%string
  end.

Definition unavailable (seatIds : list jsval) (showtime : Showtime.t)
  : list jsval :=
  List.filter (seatUnavailable showtime) seatIds.

(** [for (const seatId of seatIds) { seat = seats.find(..); if (seat)
    seat.status = status }] *)
Definition markSeats (status : string) (seatIds : list jsval)
    (l : list Seat.t) : list Seat.t :=
  fold_left
    (fun acc seatId =>
       updateFirst (fun x => strictEq (Seat.id x) seatId)
                   (Seat.withStatus status) acc)
    seatIds l.

(** The movies array after the seats of the located showtime object have
    been marked: [showtime] is an alias into [movies]. *)
Definition markShowtime (showtimeId : jsval) (f : list Seat.t -> list Seat.t)
    (ms : list Movie.t) : list Movie.t :=
  updateFirst
    (fun m => bool_decide
       (is_Some (List.find (fun x => strictEq (Showtime.id x) showtimeId)
                           (Movie.showtimes m))))
    (Movie.withShowtimes
       (updateFirst (fun x => strictEq (Showtime.id x) showtimeId)
                    (Showtime.withSeats f)))
    ms.

(** ['b' + Date.now()] *)
Definition bookingId (now : Z) : string := "b" +:+ pretty now.

(** [now] is the reading of [Date.now()] while the request is served. *)
Definition postBooking (now : Z) (req : bookingRequest) (st : store)
  : response * store :=
  if negb (truthy (customerName req)) || negb (truthy (showtimeId req))
     || negb (isArray (seats req))
  then (InvalidRequest, st)
  else
    match seats req with
    | JArr seatIds =>
        match findShowtime (showtimeId req) (movies st) with
        | None => (ShowtimeNotFound, st)
        | Some (movie, showtime) =>
            let unav := unavailable seatIds showtime in
            if (0 <? length unav)%nat
            then (SeatsUnavailable unav, st)
            else
              let movies' :=
                markShowtime (showtimeId req) (markSeats "booked" seatIds)
                             (movies st) in
              let booking :=
                Booking.mk (bookingId now) (customerName req) (Movie.id movie)
                           (showtimeId req) seatIds in
              (Booked booking, Store movies' (bookings st ++ [booking]))
        end
    | _ => (InvalidRequest, st)
    end.

(** ** GET /api/bookings?customer=NAME *)

(** [v.toLowerCase()]: only strings have the method, a call on any other
    value raises a TypeError ([None]). *)
Definition toLowerCaseOf (v : jsval) : option string :=
  match v with JStr s => Some (toLowerCase s) | _ => None end.

(** The callback of the filter over the bookings. *)
Definition customerMatches (q : string) (b : Booking.t) : option bool :=
  name ← toLowerCaseOf (orEmpty (Booking.customerName b));
  Some (includes q name).

(** [l.filter(p)] for a callback that may raise: the first exception ends
    the whole call. *)
Fixpoint filterThrowing {A} (p : A -> option bool) (l : list A)
  : option (list A) :=
  match l with
  | [] => Some []
  | x :: r =>
      keep ← p x;
      r' ← filterThrowing p r;
      Some (if keep : bool then x :: r' else r')
  end.

(** [customer] is [req.query.customer], [JUndefined] when the parameter is
    absent. *)
Definition getBookings (customer : jsval) (st : store) : response * store :=
  match toLowerCaseOf (orEmpty customer) with
  | None => (Threw, st)
  | Some q =>
      if negb (truthy (JStr q)) then (BookingList (bookings st), st)
      else
        match filterThrowing (customerMatches q) (bookings st) with
        | Some bs => (BookingList bs, st)
        | None => (Threw, st)
        end
  end.

(** ** DELETE /api/bookings/:id *)

(** The movies array after the seats of the booking have been freed. *)
Definition freeSeats (booking : Booking.t) (ms : list Movie.t)
  : list Movie.t :=
  match List.find (fun mm => (Movie.id mm =? Booking.movieId booking)%string)
                  ms with
  | Some m =>
      match List.find
              (fun x => strictEq (Showtime.id x) (Booking.showtimeId booking))
              (Movie.showtimes m) with
      | Some s =>
          updateFirst
            (fun mm => (Movie.id mm =? Booking.movieId booking)%string)
            (Movie.withShowtimes
               (updateFirst
                  (fun x => strictEq (Showtime.id x)
                                     (Booking.showtimeId booking))
                  (Showtime.withSeats
                     (markSeats "available" (Booking.seats booking)))))
            ms
      | None => ms
      end
  | None => ms
  end.

(** [bookings.splice(idx, 1)[0]] is the entry at [idx], and the array
    loses it.  [findIndex] only answers positions of the array, so the entry
    is always there. *)
Definition deleteBooking (id : string) (st : store) : response * store :=
  match findIndex (fun b => (Booking.id b =? id)%string) (bookings st) with
  | None => (BookingNotFound, st)
  | Some idx =>
      match bookings st !! idx with
      | Some booking =>
          (Canceled (Booking.id booking),
           Store (freeSeats booking (movies st)) (delete idx (bookings st)))
      | None => (Threw, st)
      end
  end.

(** ** The seeded files *)

(** [ensureFiles]: one movie, one showtime, seats A1..A36, no booking.
    [iso] is the [new Date().toISOString()] of the first start. *)
Definition seedSeats : list Seat.t :=
  List.map (fun i => Seat.mk ("A" +:+ pretty (i + 1)%nat) "available")
           (seq 0 36).

Definition seedMovies (iso : string) : list Movie.t :=
  [ Movie.mk "m1" "Avengers: Endgame" 180
      [ Showtime.mk "s1" iso seedSeats ] ].

Definition seeded (iso : string) : store := Store (seedMovies iso) [].

(** ** Serial executions *)

(** A mutating request together with the clock reading it is served at. *)
Inductive operation : Type :=
| CreateBooking (now : Z) (req : bookingRequest)
| CancelBooking (id : string).

Definition step (st : store) (op : operation) : response * store :=
  match op with
  | CreateBooking now req => postBooking now req st
  | CancelBooking id => deleteBooking id st
  end.

(** The store after the operations have been served one after the other. *)
Definition run (st : store) (ops : list operation) : store :=
  fold_left (fun s op => snd (step s op)) ops st.

(** The responses of such a run, in order. *)
Fixpoint responses (st : store) (ops : list operation) : list response :=
  match ops with
  | [] => []
  | op :: r => fst (step st op) :: responses (snd (step st op)) r
  end.

(** ** The vocabulary of the specification *)

(** The status the seat map holds for a seat id.  Seat ids are unique within
    a showing; the entry of an id is the first one that carries it. *)
Definition seatStatus (showtime : Showtime.t) (seatId : jsval)
  : option string :=
  Seat.status <$>
    List.find (fun x => strictEq (Seat.id x) seatId) (Showtime.seats showtime).

(** A seat id is available when the map has it with status [available]. *)
Definition isAvailable (showtime : Showtime.t) (seatId : jsval) : Prop :=
  seatStatus showtime seatId = Some "available".

(** The showing a showing id resolves to. *)
Definition resolveShowtime (showtimeId : jsval) (ms : list Movie.t)
  : option Showtime.t :=
  snd <$> findShowtime showtimeId ms.

(** No seat id is held by two active bookings of the same showing: the
    bookings are taken by their position in the ledger. *)
Definition noDoubleBooking (st : store) : Prop :=
  forall i j b1 b2 seatId,
    i <> j ->
    bookings st !! i = Some b1 ->
    bookings st !! j = Some b2 ->
    Booking.showtimeId b1 = Booking.showtimeId b2 ->
    In seatId (Booking.seats b1) ->
    In seatId (Booking.seats b2) ->
    False.

(** Every seat held by an active booking is not available in the showing its
    showing id resolves to. *)
Definition heldSeatsTaken (st : store) : Prop :=
  forall b showtime seatId,
    In b (bookings st) ->
    resolveShowtime (Booking.showtimeId b) (movies st) = Some showtime ->
    In seatId (Booking.seats b) ->
    seatUnavailable showtime seatId = true.

(** The invariant of the engine: the ledger and the seat maps agree. *)
Definition consistent (st : store) : Prop :=
  noDoubleBooking st /\ heldSeatsTaken st.

(** The request is rejected by the validation of [POST /api/bookings] as the
    handler tests it. *)
Definition rejectedAsInvalid (req : bookingRequest) : Prop :=
  truthy (customerName req) = false \/ truthy (showtimeId req) = false \/
  isArray (seats req) = false.

(** Two seat lists that differ at most in the status of the requested
    seats. *)
Definition seatsDifferOnlyOn (seatIds : list jsval) (status : string)
    (before after : list Seat.t) : Prop :=
  Forall2
    (fun x y =>
       Seat.id y = Seat.id x /\
       (Seat.status y = Seat.status x \/
        (In (JStr (Seat.id x)) seatIds /\ Seat.status y = status)))
    before after.

(** The same for a list of showtimes and for the catalog: ids, times, titles
    and durations are the same, position by position. *)
Definition showtimesDifferOnlyOn (seatIds : list jsval) (status : string)
    (before after : list Showtime.t) : Prop :=
  Forall2
    (fun x y =>
       Showtime.id y = Showtime.id x /\ Showtime.time y = Showtime.time x /\
       seatsDifferOnlyOn seatIds status (Showtime.seats x) (Showtime.seats y))
    before after.

Definition moviesDifferOnlyOn (seatIds : list jsval) (status : string)
    (before after : list Movie.t) : Prop :=
  Forall2
    (fun x y =>
       Movie.id y = Movie.id x /\ Movie.title y = Movie.title x /\
       Movie.duration y = Movie.duration x /\
       showtimesDifferOnlyOn seatIds status
         (Movie.showtimes x) (Movie.showtimes y))
    before after.

#[global] Instance isAvailable_dec showtime seatId :
  Decision (isAvailable showtime seatId) :=
  decide (seatStatus showtime seatId = Some "available").

(** The subset of the requested seat ids that are not currently available,
    an id that the seat map does not have being not available. *)
Definition notAvailable (showtime : Showtime.t) (seatIds : list jsval)
  : list jsval :=
  filter (fun seatId => ~ isAvailable showtime seatId) seatIds.

(** The validation rule as the specification words it: empty customer name,
    empty showing id, or a seat list that is empty or has duplicates. *)
Definition specInvalid (req : bookingRequest) : Prop :=
  customerName req = JStr "" \/ showtimeId req = JStr "" \/
  exists seatIds, seats req = JArr seatIds /\ (seatIds = [] \/ ~ NoDup seatIds).

(** A customer name that [toLowerCase] accepts after [|| '']. *)
Definition stringOrFalsy (v : jsval) : Prop :=
  truthy v = false \/ exists s, v = JStr s.

(** The text of a string value, the empty string standing for a falsy
    one. *)
Definition textOf (v : jsval) : string :=
  match orEmpty v with JStr s => s | _ => "" end.

(** The name the listing compares. *)
Definition nameOf (b : Booking.t) : string := textOf (Booking.customerName b).

(** [name] contains [q] as a substring, letter case ignored. *)
Definition containsIgnoringCase (q name : string) : Prop :=
  exists before after,
    toLowerCase name = before +:+ toLowerCase q +:+ after.

(** ** The scenario of the specification *)

Definition scenarioIso : string := "2025-01-01T00:00:00.000Z".
Definition scenarioStart : store := seeded scenarioIso.

Definition aliceRequest : bookingRequest :=
  BookingRequest (JStr "Alice") (JStr "s1") (JArr [JStr "A1"; JStr "A2"]).
Definition bobRequest : bookingRequest :=
  BookingRequest (JStr "Bob") (JStr "s1") (JArr [JStr "A2"; JStr "A3"]).

Definition aliceClock : Z := 1735689600000.
Definition bobClock : Z := 1735689600250.

(** The store once Alice holds A1 and A2. *)
Definition aliceBooked : store :=
  snd (postBooking aliceClock aliceRequest scenarioStart).

(** A second customer served within the same millisecond as Alice. *)
Definition carolRequest : bookingRequest :=
  BookingRequest (JStr "Carol") (JStr "s1") (JArr [JStr "A3"]).
Definition carolBooking : Booking.t :=
  Booking.mk (bookingId aliceClock) (JStr "Carol") "m1" (JStr "s1")
             [JStr "A3"].
Definition aliceBooking : Booking.t :=
  Booking.mk (bookingId aliceClock) (JStr "Alice") "m1" (JStr "s1")
             [JStr "A1"; JStr "A2"].
Definition carolBooked : store :=
  snd (postBooking aliceClock carolRequest aliceBooked).

(** A request whose customer name is the JSON number 5. *)
Definition numericNameRequest : bookingRequest :=
  BookingRequest (JNum 5) (JStr "s1") (JArr [JStr "A4"]).

(** ** GET /api/showtimes/:id/seats *)

Module SeatsView.
Record t := mk
  { movieTitle : string; showtimeId : string; time : string;
    seats : list Seat.t }.
End SeatsView.

Inductive seatsResponse : Type :=
| SeatsOk (view : SeatsView.t)   (* 200 *)
| SeatsShowtimeNotFound.         (* 404 showtime_not_found *)

(** The loop over the movies; [id] is the route parameter, a string. *)
Fixpoint seatsOfShowtime (id : string) (ms : list Movie.t) : seatsResponse :=
  match ms with
  | [] => SeatsShowtimeNotFound
  | movie :: rest =>
      match List.find (fun s => (Showtime.id s =? id)%string)
                      (Movie.showtimes movie) with
      | Some showtime =>
          SeatsOk (SeatsView.mk (Movie.title movie) (Showtime.id showtime)
                                (Showtime.time showtime)
                                (Showtime.seats showtime))
      | None => seatsOfShowtime id rest
      end
  end.

Definition getShowtimeSeats (id : string) (st : store)
  : seatsResponse * store :=
  (seatsOfShowtime id (movies st), st).

(** The status a seats view shows for a seat id. *)
Definition viewStatus (view : SeatsView.t) (seatId : string) : option string :=
  Seat.status <$>
    List.find (fun x => (Seat.id x =? seatId)%string) (SeatsView.seats view).

(** ** The files at start-up *)

(** What [fs.pathExists] and [readJSON] see: each file is absent or holds
    its parsed contents. *)
Record files := Files
  { moviesFile : option (list Movie.t);
    bookingsFile : option (list Booking.t) }.

(** [ensureFiles]; [iso] is the clock reading taken if the movies file has
    to be written. *)
Definition ensureFiles (iso : string) (fs : files) : files :=
  let fs1 :=
    match moviesFile fs with
    | Some _ => fs
    | None => Files (Some (seedMovies iso)) (bookingsFile fs)
    end in
  match bookingsFile fs1 with
  | Some _ => fs1
  | None => Files (moviesFile fs1) (Some [])
  end.

(** The store the handlers work on once both files are there. *)
Definition storeOf (fs : files) : option store :=
  ms ← moviesFile fs; bs ← bookingsFile fs; Some (Store ms bs).

(** ** The seeded catalog in the course of a run *)

(** The seats of showtime s1. *)
Definition seatsOf (st : store) : list Seat.t :=
  match resolveShowtime (JStr "s1") (movies st) with
  | Some sh => Showtime.seats sh
  | None => []
  end.

(** Some booking of the ledger holds the seat. *)
Definition heldBy (st : store) (seatId : string) : Prop :=
  exists b, In b (bookings st) /\ In (JStr seatId) (Booking.seats b).

(** Seat statuses and ledger agree: a seat is [booked] and held by a
    booking, or [available] and held by none. *)
Definition lockstep (st : store) : Prop :=
  forall seat, In seat (seatsOf st) ->
    (Seat.status seat = "booked" /\ heldBy st (Seat.id seat))
    \/ (Seat.status seat = "available" /\ ~ heldBy st (Seat.id seat)).

(** The catalog is the seeded one up to seat statuses. *)
Definition seededCatalog (iso : string) (st : store) : Prop :=
  exists seats,
    movies st = [ Movie.mk "m1" "Avengers: Endgame" 180
                    [ Showtime.mk "s1" iso seats ] ] /\
    List.map Seat.id seats = List.map Seat.id seedSeats.

(** Every booking of the ledger points into the seeded catalog. *)
Definition ledgerPointsIntoCatalog (st : store) : Prop :=
  forall b, In b (bookings st) ->
    Booking.movieId b = "m1" /\ Booking.showtimeId b = JStr "s1" /\
    forall v, In v (Booking.seats b) ->
      exists i, v = JStr i /\ In i (List.map Seat.id seedSeats).

(** The conditions under which the listing raises. *)
Definition listingRaises (customer : jsval) (st : store) : Prop :=
  (truthy customer = true /\ forall s, customer <> JStr s)
  \/ exists q b,
      customer = JStr q /\ q <> "" /\ In b (bookings st) /\
      truthy (Booking.customerName b) = true /\
      forall s, Booking.customerName b <> JStr s.

(** Text of ASCII characters only.  On such text the model's [toLowerCase]
    is JavaScript's; beyond it JavaScript also folds letters that the model
    leaves alone. *)
Definition asciiText (s : string) : bool :=
  forallb (fun c => (N_of_ascii c <? 128)%N) (list_ascii_of_string s).

(** The ledger that Alice's and Carol's requests of one millisecond left,
    beside a catalog from which showtime s1 has since been taken out. *)
Definition driftedStore : store :=
  Store [ Movie.mk "m1" "Avengers: Endgame" 180 [] ] (bookings carolBooked).

(** * Properties *)

(** ** Strict equality and the array helpers *)

Lemma strictEq_true s v : strictEq s v = true <-> v = JStr s.
Proof.
  destruct v; simpl; try (split; [discriminate | congruence]).
  rewrite String.eqb_eq. split; congruence.
Qed.

Lemma strictEq_refl s : strictEq s (JStr s) = true.
Proof. by apply strictEq_true. Qed.

(** Two JSON values are the same, or no catalog string equals both. *)
Lemma strictEq_cases v w :
  v = w \/ (forall s, strictEq s v = true -> strictEq s w = false).
Proof.
  destruct v as [| | | |a| |]; try (right; intros s; simpl; discriminate).
  destruct w as [| | | |b| |]; try (right; intros s; reflexivity).
  destruct (decide (a = b)) as [->|Hne]; [by left|right].
  intros s Hs. apply strictEq_true in Hs. simplify_eq.
  simpl. by apply String.eqb_neq.
Qed.

Section ArrayHelpers.
Context {A : Type}.
Implicit Types (p q : A -> bool) (f : A -> A) (l : list A).

Lemma find_split p l x :
  List.find p l = Some x ->
  exists l1 l2, l = l1 ++ x :: l2 /\ p x = true /\
                Forall (fun y => p y = false) l1.
Proof.
  induction l as [|y l IH]; simpl; [discriminate|].
  destruct (p y) eqn:Hy.
  - intros [= ->]. exists [], l. by repeat split.
  - intros (l1 & l2 & -> & Hx & Hl1)%IH.
    exists (y :: l1), l2. repeat split; auto.
Qed.

Lemma find_app_skip p l1 l2 :
  Forall (fun y => p y = false) l1 ->
  List.find p (l1 ++ l2) = List.find p l2.
Proof. induction 1 as [|y l1 Hy _ IH]; simpl; [done|]. by rewrite Hy. Qed.

Lemma updateFirst_app_skip p f l1 l2 :
  Forall (fun y => p y = false) l1 ->
  updateFirst p f (l1 ++ l2) = l1 ++ updateFirst p f l2.
Proof.
  induction 1 as [|y l1 Hy _ IH]; simpl; [done|]. by rewrite Hy, IH.
Qed.

Lemma updateFirst_none p f l :
  List.find p l = None -> updateFirst p f l = l.
Proof.
  induction l as [|y l IH]; simpl; [done|].
  destruct (p y); [discriminate|]. intros H. by rewrite IH.
Qed.

Lemma updateFirst_length p f l : length (updateFirst p f l) = length l.
Proof.
  induction l as [|y l IH]; simpl; [done|]. destruct (p y); simpl; auto.
Qed.

(** Reading back through the same test gives the updated element. *)
Lemma find_updateFirst p f l :
  (forall x, p x = true -> p (f x) = true) ->
  List.find p (updateFirst p f l) = f <$> List.find p l.
Proof.
  intros Hf. induction l as [|y l IH]; simpl; [done|].
  destruct (p y) eqn:Hy; simpl.
  - by rewrite (Hf _ Hy).
  - by rewrite Hy.
Qed.

(** A test that excludes the updated element does not see the update. *)
Lemma find_updateFirst_other q p f l :
  (forall x, p x = true -> q x = false /\ q (f x) = false) ->
  List.find q (updateFirst p f l) = List.find q l.
Proof.
  intros Hf. induction l as [|y l IH]; simpl; [done|].
  destruct (p y) eqn:Hy; simpl.
  - destruct (Hf _ Hy) as [-> ->]. done.
  - by rewrite IH.
Qed.

Lemma findIndex_split p l i :
  findIndex p l = Some i ->
  exists x l1 l2, l = l1 ++ x :: l2 /\ length l1 = i /\ p x = true /\
                  Forall (fun y => p y = false) l1.
Proof.
  revert i. induction l as [|y l IH]; intros i; simpl; [discriminate|].
  destruct (p y) eqn:Hy.
  - intros [= <-]. exists y, [], l. by repeat split.
  - destruct (findIndex p l) as [k|] eqn:Hk; simpl; [|discriminate].
    intros [= <-]. destruct (IH k eq_refl) as (x & l1 & l2 & -> & <- & Hx & Hl1).
    exists x, (y :: l1), l2. repeat split; auto.
Qed.

Lemma findIndex_app_skip p l1 x l2 :
  Forall (fun y => p y = false) l1 -> p x = true ->
  findIndex p (l1 ++ x :: l2) = Some (length l1).
Proof.
  intros Hl1 Hx. induction Hl1 as [|y l1 Hy _ IH]; simpl.
  - by rewrite Hx.
  - by rewrite Hy, IH.
Qed.

Lemma findIndex_None p l :
  findIndex p l = None <-> Forall (fun y => p y = false) l.
Proof.
  induction l as [|y l IH]; simpl.
  - split; [constructor|done].
  - destruct (p y) eqn:Hy.
    + split; [discriminate|]. intros H. inversion H; congruence.
    + destruct (findIndex p l) eqn:Hk; simpl.
      * split; [discriminate|]. intros H. inversion H; subst.
        by apply IH in H3.
      * split; [|done]. intros _. constructor; [done|]. by apply IH.
Qed.
End ArrayHelpers.

(** ** Marking seats *)

Local Abbreviation seatIs v := (fun x : Seat.t => strictEq (Seat.id x) v).
Local Abbreviation showIs v := (fun x : Showtime.t => strictEq (Showtime.id x) v).
Local Abbreviation requested x ids := (existsb (strictEq (Seat.id x)) ids).
Local Abbreviation others x ids :=
  (List.filter (fun v => negb (strictEq (Seat.id x) v)) ids).

Lemma requested_In x ids : requested x ids = true <-> In (JStr (Seat.id x)) ids.
Proof.
  rewrite existsb_exists. split.
  - intros (v & Hv & ->%strictEq_true). done.
  - intros H. exists (JStr (Seat.id x)). split; [done|apply strictEq_refl].
Qed.

Lemma others_In x ids v :
  In v (others x ids) <-> In v ids /\ v <> JStr (Seat.id x).
Proof.
  rewrite filter_In, negb_true_iff. split; intros [Hin Hv]; split; auto.
  - intros ->. by rewrite strictEq_refl in Hv.
  - destruct (strictEq (Seat.id x) v) eqn:E; [|done].
    by apply strictEq_true in E.
Qed.

Lemma markSeats_nil s ids : markSeats s ids [] = [].
Proof. unfold markSeats. induction ids; simpl; auto. Qed.

Lemma markSeats_step s w ids l :
  markSeats s (w :: ids) l =
  markSeats s ids (updateFirst (seatIs w) (Seat.withStatus s) l).
Proof. reflexivity. Qed.

(** The loop seen from the seat map: the first entry is marked when its id
    is requested, and the entries behind it are out of reach of that id. *)
Lemma markSeats_cons s ids x r :
  markSeats s ids (x :: r) =
  (if requested x ids then Seat.withStatus s x else x)
    :: markSeats s (others x ids) r.
Proof.
  revert x r. induction ids as [|w ids IH]; intros x r; [done|].
  rewrite markSeats_step. simpl.
  destruct (strictEq (Seat.id x) w) eqn:E; simpl.
  - rewrite IH. simpl. by destruct (requested x ids).
  - rewrite IH. reflexivity.
Qed.

Lemma markSeats_length s ids l : length (markSeats s ids l) = length l.
Proof.
  revert ids. induction l as [|x r IH]; intros ids.
  - by rewrite markSeats_nil.
  - rewrite markSeats_cons. simpl. by rewrite IH.
Qed.

Lemma marked_id s ids (x : Seat.t) :
  Seat.id (if requested x ids then Seat.withStatus s x else x) = Seat.id x.
Proof. by destruct (requested x ids). Qed.

(** Looking a seat up after the loop. *)
Lemma find_markSeats s ids l v :
  List.find (seatIs v) (markSeats s ids l) =
  (fun x => if requested x ids then Seat.withStatus s x else x)
    <$> List.find (seatIs v) l.
Proof.
  revert ids. induction l as [|x r IH]; intros ids.
  - by rewrite markSeats_nil.
  - rewrite markSeats_cons. simpl List.find. rewrite marked_id.
    destruct (strictEq (Seat.id x) v) eqn:E; [done|].
    rewrite IH. destruct (List.find (seatIs v) r) as [y|] eqn:Hy; [|done].
    simpl. f_equal.
    apply find_some in Hy as [_ Hy%strictEq_true]. subst v.
    assert (requested y (others x ids) = requested y ids) as ->; [|done].
    apply eq_true_iff_eq. rewrite !requested_In, others_In.
    split; [tauto|]. intros H. split; [done|]. intros [= Heq].
    rewrite Heq, strictEq_refl in E. done.
Qed.

Lemma seatStatus_markSeats_in s ids sh v :
  In v ids ->
  seatStatus (Showtime.withSeats (markSeats s ids) sh) v
  = (fun _ => s) <$> seatStatus sh v.
Proof.
  intros Hin. unfold seatStatus. simpl. rewrite find_markSeats.
  destruct (List.find (seatIs v) (Showtime.seats sh)) as [y|] eqn:Hy; [|done].
  simpl. apply find_some in Hy as [_ Hy%strictEq_true]. subst v.
  apply requested_In in Hin. by rewrite Hin.
Qed.

Lemma seatStatus_markSeats_notin s ids sh v :
  ~ In v ids ->
  seatStatus (Showtime.withSeats (markSeats s ids) sh) v = seatStatus sh v.
Proof.
  intros Hin. unfold seatStatus. simpl. rewrite find_markSeats.
  destruct (List.find (seatIs v) (Showtime.seats sh)) as [y|] eqn:Hy; [|done].
  simpl. apply find_some in Hy as [_ Hy%strictEq_true]. subst v.
  destruct (requested y ids) eqn:E; [|done].
  by apply requested_In in E.
Qed.

Lemma seatUnavailable_status sh v :
  seatUnavailable sh v = false <-> isAvailable sh v.
Proof.
  unfold seatUnavailable, isAvailable, seatStatus.
  destruct (List.find _ _) as [y|]; simpl.
  - rewrite negb_false_iff, String.eqb_eq. split; congruence.
  - split; discriminate.
Qed.

(** The loop changes nothing but the status of requested seats. *)
Lemma markSeats_frame s ids l : seatsDifferOnlyOn ids s l (markSeats s ids l).
Proof.
  revert ids. induction l as [|x r IH]; intros ids.
  - rewrite markSeats_nil. constructor.
  - rewrite markSeats_cons. constructor.
    + rewrite marked_id. split; [done|].
      destruct (requested x ids) eqn:E; [right|by left].
      apply requested_In in E. done.
    + eapply Forall2_impl; [apply IH|].
      intros a b [Hid [Hs|[Hin Hs]]]; split; auto.
      right. split; [|done]. by apply others_In in Hin as [? _].
Qed.

(** Marking the seats of a list and then marking them back restores the
    seat map, when every requested seat that exists had the final status. *)
Lemma markSeats_back s s0 ids l :
  (forall v y, In v ids -> List.find (seatIs v) l = Some y -> Seat.status y = s0) ->
  markSeats s0 ids (markSeats s ids l) = l.
Proof.
  revert ids. induction l as [|x r IH]; intros ids H.
  - by rewrite !markSeats_nil.
  - rewrite markSeats_cons, markSeats_cons, marked_id. f_equal.
    + destruct (requested x ids) eqn:E; [|done].
      apply requested_In in E.
      assert (Seat.status x = s0) as Hx.
      { apply (H _ x E). cbn [List.find]. by rewrite strictEq_refl. }
      destruct x as [i st]. simpl in *. by subst.
    + apply IH. intros v y [Hin Hne]%others_In Hy. apply (H v y Hin).
      cbn [List.find]. destruct (strictEq (Seat.id x) v) eqn:E; [|done].
      by apply strictEq_true in E.
Qed.

(** ** Locating and updating a showtime in the catalog *)

Local Abbreviation hasShowtime sid :=
  (fun m : Movie.t =>
     bool_decide (is_Some (List.find (showIs sid) (Movie.showtimes m)))).
Local Abbreviation movieIs mid := (fun mm : Movie.t => (Movie.id mm =? mid)%string).
Local Abbreviation touch pm sid f :=
  (updateFirst pm
     (Movie.withShowtimes (updateFirst (showIs sid) (Showtime.withSeats f)))).

Lemma findShowtime_split sid ms m s :
  findShowtime sid ms = Some (m, s) ->
  exists pre post spre spost,
    ms = pre ++ m :: post /\
    Forall (fun m' => hasShowtime sid m' = false) pre /\
    Movie.showtimes m = spre ++ s :: spost /\
    Forall (fun x => strictEq (Showtime.id x) sid = false) spre /\
    strictEq (Showtime.id s) sid = true.
Proof.
  induction ms as [|m0 rest IH]; simpl; [discriminate|].
  destruct (List.find (showIs sid) (Movie.showtimes m0)) as [s0|] eqn:Hs0.
  - intros [= -> ->].
    apply find_split in Hs0 as (spre & spost & Hm & Hs & Hspre).
    exists [], rest, spre, spost. by repeat split.
  - intros (pre & post & spre & spost & -> & Hpre & Hm & Hspre & Hs)%IH.
    exists (m0 :: pre), post, spre, spost. repeat split; auto.
    constructor; [|done]. rewrite Hs0. apply bool_decide_eq_false.
    by intros [? ?].
Qed.

Lemma showtime_found sid spre s spost :
  Forall (fun x => strictEq (Showtime.id x) sid = false) spre ->
  strictEq (Showtime.id s) sid = true ->
  List.find (showIs sid) (spre ++ s :: spost) = Some s.
Proof. intros Hspre Hs. rewrite find_app_skip by done. simpl. by rewrite Hs. Qed.

(** The catalog after the located showtime's seats have been rewritten. *)
Lemma markShowtime_split sid f pre m post spre s spost :
  Forall (fun m' => hasShowtime sid m' = false) pre ->
  Movie.showtimes m = spre ++ s :: spost ->
  Forall (fun x => strictEq (Showtime.id x) sid = false) spre ->
  strictEq (Showtime.id s) sid = true ->
  markShowtime sid f (pre ++ m :: post) =
  pre ++ Movie.mk (Movie.id m) (Movie.title m) (Movie.duration m)
           (spre ++ Showtime.mk (Showtime.id s) (Showtime.time s)
                                (f (Showtime.seats s)) :: spost)
      :: post.
Proof.
  intros Hpre Hm Hspre Hs. unfold markShowtime.
  rewrite updateFirst_app_skip by done. simpl.
  rewrite Hm, showtime_found by done.
  rewrite bool_decide_eq_true_2 by eauto.
  unfold Movie.withShowtimes. rewrite Hm.
  rewrite updateFirst_app_skip by done. simpl. by rewrite Hs.
Qed.

Lemma find_showtime_touched sid f l sid' :
  List.find (showIs sid') (updateFirst (showIs sid) (Showtime.withSeats f) l)
    = List.find (showIs sid') l
  \/ (sid' = sid /\
      List.find (showIs sid') (updateFirst (showIs sid) (Showtime.withSeats f) l)
        = Showtime.withSeats f <$> List.find (showIs sid') l).
Proof.
  destruct (strictEq_cases sid sid') as [->|Hne].
  - right. split; [done|]. by apply find_updateFirst.
  - left. apply find_updateFirst_other. intros x Hx. simpl. auto.
Qed.

(** Resolving a showing id after some showtime object has been rewritten:
    the result is the same showtime, or it is the rewritten one. *)
Lemma resolve_touch pm sid f ms sid' :
  resolveShowtime sid' (touch pm sid f ms) = resolveShowtime sid' ms
  \/ (sid' = sid /\
      resolveShowtime sid' (touch pm sid f ms)
        = Showtime.withSeats f <$> resolveShowtime sid' ms).
Proof.
  unfold resolveShowtime. induction ms as [|m rest IH]; [by left|].
  simpl updateFirst. destruct (pm m) eqn:Hpm.
  - simpl findShowtime.
    destruct (find_showtime_touched sid f (Movie.showtimes m) sid')
      as [->|[-> ->]].
    + left. by destruct (List.find (showIs sid') (Movie.showtimes m)).
    + destruct (List.find (showIs sid) (Movie.showtimes m)); simpl;
        [right|left]; done.
  - simpl findShowtime.
    destruct (List.find (showIs sid') (Movie.showtimes m)); [by left|].
    apply IH.
Qed.

Lemma resolve_markShowtime sid f ms :
  resolveShowtime sid (markShowtime sid f ms)
  = Showtime.withSeats f <$> resolveShowtime sid ms.
Proof.
  unfold resolveShowtime, markShowtime.
  induction ms as [|m rest IH]; [done|]. simpl.
  destruct (List.find (showIs sid) (Movie.showtimes m)) as [s|] eqn:Hs.
  - rewrite bool_decide_eq_true_2 by eauto. simpl.
    rewrite find_updateFirst by done. by rewrite Hs.
  - rewrite bool_decide_eq_false_2 by (by intros [? ?]). simpl.
    by rewrite Hs.
Qed.

Lemma freeSeats_touch b ms :
  freeSeats b ms = ms \/
  freeSeats b ms =
    touch (movieIs (Booking.movieId b)) (Booking.showtimeId b)
          (markSeats "available" (Booking.seats b)) ms.
Proof.
  unfold freeSeats. destruct (List.find _ ms) as [m|]; [|by left].
  destruct (List.find _ (Movie.showtimes m)); [by right|by left].
Qed.

Lemma resolve_freeSeats b ms sid' :
  resolveShowtime sid' (freeSeats b ms) = resolveShowtime sid' ms
  \/ (sid' = Booking.showtimeId b /\
      resolveShowtime sid' (freeSeats b ms)
        = Showtime.withSeats (markSeats "available" (Booking.seats b))
            <$> resolveShowtime sid' ms).
Proof.
  destruct (freeSeats_touch b ms) as [->| ->]; [by left|apply resolve_touch].
Qed.

(** ** The outcomes of POST /api/bookings *)

Lemma rejectedAsInvalid_guard req :
  negb (truthy (customerName req)) || negb (truthy (showtimeId req))
    || negb (isArray (seats req)) = true
  <-> rejectedAsInvalid req.
Proof.
  unfold rejectedAsInvalid.
  rewrite !orb_true_iff, !negb_true_iff. tauto.
Qed.

(** The handler has four exits; each is taken under its own condition. *)
Lemma postBooking_cases now req st :
  (rejectedAsInvalid req /\ postBooking now req st = (InvalidRequest, st))
  \/ exists seatIds,
      truthy (customerName req) = true /\ truthy (showtimeId req) = true /\
      seats req = JArr seatIds /\
      ((findShowtime (showtimeId req) (movies st) = None /\
        postBooking now req st = (ShowtimeNotFound, st))
       \/ exists movie showtime,
           findShowtime (showtimeId req) (movies st) = Some (movie, showtime) /\
           ((unavailable seatIds showtime <> [] /\
             postBooking now req st
             = (SeatsUnavailable (unavailable seatIds showtime), st))
            \/ (unavailable seatIds showtime = [] /\
                postBooking now req st
                = (Booked (Booking.mk (bookingId now) (customerName req)
                             (Movie.id movie) (showtimeId req) seatIds),
                   Store (markShowtime (showtimeId req)
                            (markSeats "booked" seatIds) (movies st))
                         (bookings st ++
                            [Booking.mk (bookingId now) (customerName req)
                               (Movie.id movie) (showtimeId req) seatIds]))))).
Proof.
  unfold postBooking.
  destruct (negb (truthy (customerName req)) || negb (truthy (showtimeId req))
            || negb (isArray (seats req))) eqn:Hguard.
  { left. split; [by apply rejectedAsInvalid_guard|done]. }
  right. rewrite !orb_false_iff, !negb_false_iff in Hguard.
  destruct Hguard as [[Hname Hsid] Harr].
  destruct (seats req) as [| | | | |seatIds|]; try discriminate.
  exists seatIds. repeat split; try done.
  destruct (findShowtime (showtimeId req) (movies st)) as [[movie showtime]|];
    [right|by left].
  exists movie, showtime. split; [done|].
  destruct (unavailable seatIds showtime) as [|v busy] eqn:Hbusy; simpl.
  - right. done.
  - left. done.
Qed.

(** What an accepted request tells. *)
Lemma postBooking_booked now req st b st' :
  postBooking now req st = (Booked b, st') ->
  exists seatIds movie showtime,
    truthy (customerName req) = true /\ truthy (showtimeId req) = true /\
    seats req = JArr seatIds /\
    findShowtime (showtimeId req) (movies st) = Some (movie, showtime) /\
    unavailable seatIds showtime = [] /\
    b = Booking.mk (bookingId now) (customerName req) (Movie.id movie)
                   (showtimeId req) seatIds /\
    st' = Store (markShowtime (showtimeId req) (markSeats "booked" seatIds)
                              (movies st))
                (bookings st ++ [b]).
Proof.
  intros Hpost.
  destruct (postBooking_cases now req st)
    as [[_ H]|(seatIds & Hname & Hsid & Hseats &
               [[_ H]|(m & s & Hfind & [[_ H]|[Hnil H]])])];
    rewrite H in Hpost; try discriminate.
  injection Hpost as <- <-. by exists seatIds, m, s.
Qed.

(** The exits of the handler, one goal for each, with the response and the
    store rewritten. *)
Ltac postBooking_exits now req st :=
  let H := fresh "Hexit" in
  destruct (postBooking_cases now req st)
    as [[_ H]|(? & _ & _ & _ & [[_ H]|(? & ? & _ & [[_ H]|[_ H]])])];
  rewrite H; clear H; simpl.

Lemma unavailable_notAvailable seatIds showtime :
  unavailable seatIds showtime = notAvailable showtime seatIds.
Proof.
  unfold unavailable, notAvailable.
  induction seatIds as [|v l IH]; [done|]. simpl. rewrite filter_cons.
  destruct (seatUnavailable showtime v) eqn:E.
  - rewrite decide_True; [by rewrite IH|].
    intros H%seatUnavailable_status. congruence.
  - rewrite decide_False; [done|].
    apply seatUnavailable_status in E. tauto.
Qed.

(** When the seat ids of a showing are pairwise distinct, the status the map
    holds for an id is the status of the seat that carries it. *)
Lemma seatStatus_unique showtime seatId status :
  NoDup (List.map Seat.id (Showtime.seats showtime)) ->
  seatStatus showtime seatId = Some status
  <-> exists seat, In seat (Showtime.seats showtime) /\
                   JStr (Seat.id seat) = seatId /\ Seat.status seat = status.
Proof.
  unfold seatStatus. induction (Showtime.seats showtime) as [|x l IH]; simpl.
  - intros _. split; [discriminate|]. by intros (? & [] & _).
  - intros [Hx Hl]%NoDup_cons. destruct (strictEq (Seat.id x) seatId) eqn:E; simpl.
    + apply strictEq_true in E. split.
      * intros [= <-]. exists x. auto.
      * intros (y & [->|Hy] & Hid & <-); [done|].
        exfalso. apply Hx. subst seatId. injection Hid as Hid.
        rewrite <- Hid. apply list_elem_of_In, in_map, Hy.
    + rewrite (IH Hl). split.
      * intros (y & Hy & Hid & Hs). exists y. auto.
      * intros (y & [->|Hy] & Hid & Hs); [|by exists y].
        subst seatId. by rewrite strictEq_refl in E.
Qed.

(** ** Atomicity of a refused booking *)

(** C2. When [POST /api/bookings] answers 409 [seats_unavailable], the
    store after the request is the store before it: no seat status has
    changed and the ledger is the same. *)
Theorem postBooking_unavailable_no_effect now req st ids :
  fst (postBooking now req st) = SeatsUnavailable ids ->
  snd (postBooking now req st) = st.
Proof.
  postBooking_exits now req st; done.
Qed.

Lemma postBooking_unavailable_no_effect_witness :
  snd (postBooking bobClock bobRequest aliceBooked) = aliceBooked.
Proof.
  apply (postBooking_unavailable_no_effect bobClock bobRequest aliceBooked
           [JStr "A2"]).
  vm_compute. reflexivity.
Defined.

(** Every answer other than 201 leaves the store as it was. *)
Lemma postBooking_refused_no_effect now req st :
  statusCode (fst (postBooking now req st)) <> Some 201 ->
  snd (postBooking now req st) = st.
Proof.
  postBooking_exits now req st; done.
Qed.

(** ** The availability check *)

(** After validation and resolution the answer is decided by the
    availability filter alone. *)
Lemma postBooking_checked now req st seatIds movie showtime :
  truthy (customerName req) = true ->
  truthy (showtimeId req) = true ->
  seats req = JArr seatIds ->
  findShowtime (showtimeId req) (movies st) = Some (movie, showtime) ->
  match unavailable seatIds showtime with
  | [] => exists b, fst (postBooking now req st) = Booked b /\
                    Booking.seats b = seatIds
  | busy => postBooking now req st = (SeatsUnavailable busy, st)
  end.
Proof.
  intros Hname Hsid Hseats Hfind.
  destruct (postBooking_cases now req st)
    as [[Hrej _]|(ids & _ & _ & Hids & [[Hnone _]|(m & s & Hms & Hcase)])].
  - unfold rejectedAsInvalid in Hrej. rewrite Hname, Hsid, Hseats in Hrej.
    simpl in Hrej. destruct Hrej as [?|[?|?]]; discriminate.
  - congruence.
  - rewrite Hseats in Hids. injection Hids as <-.
    rewrite Hfind in Hms. injection Hms as <- <-.
    destruct Hcase as [[Hne ->]|[Hnil ->]].
    + by destruct (unavailable seatIds showtime).
    + rewrite Hnil. eexists. split; reflexivity.
Qed.

(** C3. A request that passes validation and whose showing resolves is
    refused with [seats_unavailable] carrying exactly the requested seat
    ids that are not available (ids the seat map does not have included),
    in request order, when there is such an id; otherwise it is accepted and
    the booking holds the requested seat list. *)
Theorem postBooking_reports_not_available now req st seatIds movie showtime :
  truthy (customerName req) = true ->
  truthy (showtimeId req) = true ->
  seats req = JArr seatIds ->
  findShowtime (showtimeId req) (movies st) = Some (movie, showtime) ->
  match notAvailable showtime seatIds with
  | [] => exists b, fst (postBooking now req st) = Booked b /\
                    Booking.seats b = seatIds
  | busy => postBooking now req st = (SeatsUnavailable busy, st)
  end.
Proof.
  rewrite <- unavailable_notAvailable. apply postBooking_checked.
Qed.

Lemma postBooking_reports_not_available_witness :
  postBooking bobClock bobRequest aliceBooked
  = (SeatsUnavailable [JStr "A2"], aliceBooked).
Proof.
  pose proof (postBooking_reports_not_available bobClock bobRequest
                aliceBooked _ _ _ eq_refl eq_refl eq_refl eq_refl) as H.
  vm_compute in H. vm_compute. exact H.
Defined.

(** ** Validation *)

(** C5, as the handler has it.  [POST /api/bookings] answers 400
    [invalid_request] exactly when the customer name is missing or falsy
    (the empty string among others), the showing id is missing or falsy, or
    [seats] is not an array.  The length of the seat list and duplicates in
    it are not looked at. *)
Theorem postBooking_invalid_iff now req st :
  fst (postBooking now req st) = InvalidRequest <-> rejectedAsInvalid req.
Proof.
  destruct (postBooking_cases now req st)
    as [[Hrej ->]|(seatIds & Hname & Hsid & Hseats &
                   [[_ ->]|(m & s & _ & [[_ ->]|[_ ->]])])]; simpl;
    try (split; [discriminate|]);
    try (unfold rejectedAsInvalid; rewrite Hname, Hsid, Hseats; simpl;
         intros [?|[?|?]]; discriminate).
  done.
Qed.

(** C5 fails as stated: a request with an empty seat list, and one that
    names a seat twice, are invalid in the specification's sense and are
    both answered 201 on the seeded store. *)
Lemma empty_or_duplicate_seats_accepted :
  let emptyReq := BookingRequest (JStr "Alice") (JStr "s1") (JArr []) in
  let twiceReq :=
    BookingRequest (JStr "Alice") (JStr "s1") (JArr [JStr "A1"; JStr "A1"]) in
  (specInvalid emptyReq /\
   statusCode (fst (postBooking aliceClock emptyReq scenarioStart)) = Some 201)
  /\ (specInvalid twiceReq /\
      statusCode (fst (postBooking aliceClock twiceReq scenarioStart))
      = Some 201).
Proof.
  repeat split.
  - right; right. exists []. auto.
  - right; right. eexists. split; [reflexivity|right].
    intros H. apply NoDup_cons in H as [H _]. apply H. left.
Qed.

(** ** Unknown seat ids *)

(** C6, as the handler has it.  A seat id that the seat map of the resolved
    showing does not have is reported in the same 409 [seats_unavailable]
    list as the seats that exist and are taken: the list holds exactly the
    requested ids that are not available, the unknown id among them. *)
Theorem postBooking_unknown_seat_unavailable
    now req st seatIds movie showtime seatId :
  truthy (customerName req) = true ->
  truthy (showtimeId req) = true ->
  seats req = JArr seatIds ->
  findShowtime (showtimeId req) (movies st) = Some (movie, showtime) ->
  In seatId seatIds ->
  seatStatus showtime seatId = None ->
  exists ids,
    postBooking now req st = (SeatsUnavailable ids, st) /\
    In seatId ids /\
    forall v, In v ids <-> In v seatIds /\ ~ isAvailable showtime v.
Proof.
  intros Hname Hsid Hseats Hfind Hin Hunknown.
  pose proof (postBooking_checked now req st seatIds movie
                showtime Hname Hsid Hseats Hfind) as H.
  rewrite unavailable_notAvailable in H.
  assert (forall v, In v (notAvailable showtime seatIds)
                    <-> In v seatIds /\ ~ isAvailable showtime v) as Hchar.
  { intros v. unfold notAvailable.
    rewrite <- !list_elem_of_In, list_elem_of_filter. tauto. }
  assert (In seatId (notAvailable showtime seatIds)) as Hbusy.
  { apply Hchar. split; [done|]. unfold isAvailable. congruence. }
  destruct (notAvailable showtime seatIds) as [|v busy]; [done|].
  exists (v :: busy). done.
Qed.

Lemma postBooking_unknown_seat_unavailable_witness :
  exists ids,
    postBooking bobClock
      (BookingRequest (JStr "Bob") (JStr "s1") (JArr [JStr "Z9"]))
      scenarioStart
    = (SeatsUnavailable ids, scenarioStart) /\
    In (JStr "Z9") ids /\
    forall v, In v ids <->
              In v [JStr "Z9"] /\
              ~ isAvailable (Showtime.mk "s1" scenarioIso seedSeats) v.
Proof.
  apply (postBooking_unknown_seat_unavailable bobClock _ scenarioStart
           [JStr "Z9"]
           (Movie.mk "m1" "Avengers: Endgame" 180
              [Showtime.mk "s1" scenarioIso seedSeats])
           (Showtime.mk "s1" scenarioIso seedSeats) (JStr "Z9"));
    try reflexivity.
  simpl. auto.
Defined.

(** C6 fails as stated: a taken seat and a seat id the map does not have
    get the same answer.  Against a showing whose seat A1 is booked and
    against a showing that has no seat A1, the same request receives the
    same response; and on one store, a request naming a taken seat and an
    unknown one gets both back in one list. *)
Lemma unknown_and_taken_seats_reported_alike :
  let taken :=
    Store [Movie.mk "m1" "Avengers: Endgame" 180
             [Showtime.mk "s1" scenarioIso [Seat.mk "A1" "booked"]]] [] in
  let absent :=
    Store [Movie.mk "m1" "Avengers: Endgame" 180
             [Showtime.mk "s1" scenarioIso [Seat.mk "A2" "available"]]] [] in
  let req := BookingRequest (JStr "Bob") (JStr "s1") (JArr [JStr "A1"]) in
  (resolveShowtime (JStr "s1") (movies taken) ≫= (fun s => seatStatus s (JStr "A1"))
     = Some "booked" /\
   resolveShowtime (JStr "s1") (movies absent) ≫= (fun s => seatStatus s (JStr "A1"))
     = None /\
   fst (postBooking bobClock req taken) = fst (postBooking bobClock req absent))
  /\ fst (postBooking bobClock
            (BookingRequest (JStr "Bob") (JStr "s1")
               (JArr [JStr "A1"; JStr "Z9"]))
            aliceBooked)
     = SeatsUnavailable [JStr "A1"; JStr "Z9"].
Proof. vm_compute. repeat split. Qed.

(** ** What a handler leaves alone *)

Lemma updateFirst_Forall2 {A} (R : A -> A -> Prop) p f (l : list A) :
  (forall x, R x x) -> (forall x, R x (f x)) -> Forall2 R l (updateFirst p f l).
Proof.
  intros Hrefl Hf. induction l as [|x l IH]; simpl; [constructor|].
  destruct (p x); constructor; auto.
  clear IH. induction l; constructor; auto.
Qed.

Lemma seatsDifferOnlyOn_refl ids s l : seatsDifferOnlyOn ids s l l.
Proof. induction l; constructor; auto. Qed.

Lemma showtimesDifferOnlyOn_refl ids s l : showtimesDifferOnlyOn ids s l l.
Proof.
  induction l; constructor; auto using seatsDifferOnlyOn_refl.
Qed.

Lemma moviesDifferOnlyOn_refl ids s l : moviesDifferOnlyOn ids s l l.
Proof.
  induction l; constructor; auto using showtimesDifferOnlyOn_refl.
Qed.

Lemma touch_frame pm sid f ids s ms :
  (forall l, seatsDifferOnlyOn ids s l (f l)) ->
  moviesDifferOnlyOn ids s ms (touch pm sid f ms).
Proof.
  intros Hf. apply updateFirst_Forall2.
  - intros m. auto using showtimesDifferOnlyOn_refl.
  - intros m. simpl. repeat split.
    apply updateFirst_Forall2.
    + intros x. auto using seatsDifferOnlyOn_refl.
    + intros x. simpl. auto.
Qed.

(** C10. A successful [POST /api/bookings] rewrites one showtime object,
    the one the showing id resolves to.  The movies before and after it, the
    showtimes before and after it in its movie, and the id, title, duration
    and time around it are the same; in its seat list the ids are the same
    position by position and a status differs only where the seat id is
    requested, where it is [booked].  The ledger is the old ledger followed
    by the new booking. *)
Theorem postBooking_frame now req st b st' :
  postBooking now req st = (Booked b, st') ->
  exists seatIds pre m post spre s spost seats',
    seats req = JArr seatIds /\
    findShowtime (showtimeId req) (movies st) = Some (m, s) /\
    movies st = pre ++ m :: post /\
    Movie.showtimes m = spre ++ s :: spost /\
    movies st' =
      pre ++ Movie.mk (Movie.id m) (Movie.title m) (Movie.duration m)
               (spre ++ Showtime.mk (Showtime.id s) (Showtime.time s) seats'
                  :: spost)
          :: post /\
    seatsDifferOnlyOn seatIds "booked" (Showtime.seats s) seats' /\
    bookings st' = bookings st ++ [b].
Proof.
  intros (seatIds & m & s & _ & _ & Hseats & Hfind & _ & Hb & ->)
           %postBooking_booked.
  destruct (findShowtime_split _ _ _ _ Hfind)
    as (pre & post & spre & spost & Hms & Hpre & Hm & Hspre & Hs).
  exists seatIds, pre, m, post, spre, s, spost,
    (markSeats "booked" seatIds (Showtime.seats s)).
  repeat split; try done.
  - simpl. rewrite Hms. by apply markShowtime_split.
  - apply markSeats_frame.
Qed.

Lemma postBooking_frame_witness :
  exists seatIds pre m post spre s spost seats',
    seats aliceRequest = JArr seatIds /\
    findShowtime (showtimeId aliceRequest) (movies scenarioStart)
      = Some (m, s) /\
    movies scenarioStart = pre ++ m :: post /\
    Movie.showtimes m = spre ++ s :: spost /\
    movies aliceBooked =
      pre ++ Movie.mk (Movie.id m) (Movie.title m) (Movie.duration m)
               (spre ++ Showtime.mk (Showtime.id s) (Showtime.time s) seats'
                  :: spost)
          :: post /\
    seatsDifferOnlyOn seatIds "booked" (Showtime.seats s) seats' /\
    bookings aliceBooked = bookings scenarioStart ++
      [Booking.mk (bookingId aliceClock) (JStr "Alice") "m1" (JStr "s1")
         [JStr "A1"; JStr "A2"]].
Proof.
  apply (postBooking_frame aliceClock aliceRequest scenarioStart).
  vm_compute. reflexivity.
Defined.

(** ** DELETE /api/bookings/:id *)

Lemma deleteBooking_found id st pre b post :
  bookings st = pre ++ b :: post ->
  Booking.id b = id ->
  Forall (fun x => Booking.id x <> id) pre ->
  deleteBooking id st
  = (Canceled id, Store (freeSeats b (movies st)) (pre ++ post)).
Proof.
  intros Hl Hb Hpre. unfold deleteBooking. rewrite Hl.
  rewrite findIndex_app_skip.
  - rewrite list_lookup_middle by done. rewrite delete_middle. by rewrite Hb.
  - eapply Forall_impl; [exact Hpre|]. intros x Hx. by apply String.eqb_neq.
  - by apply String.eqb_eq.
Qed.

Lemma deleteBooking_cases id st :
  (Forall (fun x => Booking.id x <> id) (bookings st) /\
   deleteBooking id st = (BookingNotFound, st))
  \/ exists pre b post,
      bookings st = pre ++ b :: post /\ Booking.id b = id /\
      Forall (fun x => Booking.id x <> id) pre /\
      deleteBooking id st
      = (Canceled id, Store (freeSeats b (movies st)) (pre ++ post)).
Proof.
  destruct (findIndex (fun b => (Booking.id b =? id)%string) (bookings st))
    as [idx|] eqn:Hidx.
  - right. apply findIndex_split in Hidx as (b & pre & post & Hl & _ & Hb & Hpre).
    apply String.eqb_eq in Hb.
    assert (Forall (fun x => Booking.id x <> id) pre) as Hpre'.
    { eapply Forall_impl; [exact Hpre|]. intros x Hx. by apply String.eqb_neq. }
    exists pre, b, post. repeat split; try done.
    by apply deleteBooking_found.
  - left. split.
    + apply findIndex_None in Hidx. eapply Forall_impl; [exact Hidx|].
      intros x Hx. by apply String.eqb_neq.
    + unfold deleteBooking. by rewrite Hidx.
Qed.

Lemma freeSeats_frame b ms :
  moviesDifferOnlyOn (Booking.seats b) "available" ms (freeSeats b ms).
Proof.
  destruct (freeSeats_touch b ms) as [->| ->].
  - apply moviesDifferOnlyOn_refl.
  - apply touch_frame. intros l. apply markSeats_frame.
Qed.

Lemma freeSeats_unresolved b ms :
  (forall m, List.find (movieIs (Booking.movieId b)) ms = Some m ->
             List.find (showIs (Booking.showtimeId b)) (Movie.showtimes m)
             = None) ->
  freeSeats b ms = ms.
Proof.
  intros H. unfold freeSeats.
  destruct (List.find _ ms) as [m|]; [|done]. by rewrite (H m eq_refl).
Qed.

(** Drift is tolerated for the booking the id resolves to, the first entry
    with that id: it leaves the ledger, the others stay in order, and the
    answer is 200 [canceled] with the id, whatever the catalog holds.  The
    catalog keeps its movies, showtimes and seat entries; only the status of
    seats of the booking can change, to [available]; a seat id of the
    booking that the seat map does not have adds nothing.  When the movie or
    the showtime of the booking does not resolve, the catalog is
    unchanged. *)
Theorem deleteBooking_tolerates_drift id st pre b post :
  bookings st = pre ++ b :: post ->
  Booking.id b = id ->
  Forall (fun x => Booking.id x <> id) pre ->
  exists ms',
    deleteBooking id st = (Canceled id, Store ms' (pre ++ post)) /\
    moviesDifferOnlyOn (Booking.seats b) "available" (movies st) ms' /\
    ((forall m, List.find (movieIs (Booking.movieId b)) (movies st) = Some m ->
                List.find (showIs (Booking.showtimeId b)) (Movie.showtimes m)
                = None) ->
     ms' = movies st).
Proof.
  intros Hl Hb Hpre. exists (freeSeats b (movies st)). split; [|split].
  - by apply deleteBooking_found.
  - apply freeSeats_frame.
  - apply freeSeats_unresolved.
Qed.

Lemma deleteBooking_tolerates_drift_witness :
  let orphan :=
    Booking.mk "b1735689600000" (JStr "Alice") "m1" (JStr "s9")
               [JStr "A1"; JStr "Z9"] in
  let st := Store (seedMovies scenarioIso) [orphan] in
  exists ms',
    deleteBooking "b1735689600000" st
    = (Canceled "b1735689600000", Store ms' ([] ++ [])) /\
    moviesDifferOnlyOn (Booking.seats orphan) "available" (movies st) ms' /\
    ((forall m, List.find (movieIs (Booking.movieId orphan)) (movies st)
                = Some m ->
                List.find (showIs (Booking.showtimeId orphan))
                          (Movie.showtimes m) = None) ->
     ms' = movies st).
Proof.
  intros orphan st.
  apply (deleteBooking_tolerates_drift "b1735689600000" st [] orphan []).
  - reflexivity.
  - reflexivity.
  - constructor.
Defined.

(** ** No double booking *)

Lemma seatUnavailable_alt sh v :
  seatUnavailable sh v =
  match seatStatus sh v with
  | None => true
  | Some s => negb (s =? "available")%string
  end.
Proof. unfold seatUnavailable, seatStatus. by destruct (List.find _ _). Qed.

Lemma seatUnavailable_booked_stays ids sh v :
  seatUnavailable sh v = true ->
  seatUnavailable (Showtime.withSeats (markSeats "booked" ids) sh) v = true.
Proof.
  unfold seatUnavailable. simpl. rewrite find_markSeats.
  destruct (List.find (seatIs v) (Showtime.seats sh)) as [y|]; simpl; [|done].
  by destruct (requested y ids).
Qed.

Lemma seatUnavailable_booked ids sh v :
  In v ids ->
  seatUnavailable (Showtime.withSeats (markSeats "booked" ids) sh) v = true.
Proof.
  intros Hin. rewrite seatUnavailable_alt, seatStatus_markSeats_in by done.
  by destruct (seatStatus sh v).
Qed.

Lemma unavailable_nil ids sh v :
  unavailable ids sh = [] -> In v ids -> seatUnavailable sh v = false.
Proof.
  intros Hnil Hin. destruct (seatUnavailable sh v) eqn:E; [|done].
  assert (In v (unavailable ids sh)) as H by (by apply filter_In).
  by rewrite Hnil in H.
Qed.

Lemma findShowtime_resolve sid ms m s :
  findShowtime sid ms = Some (m, s) -> resolveShowtime sid ms = Some s.
Proof. unfold resolveShowtime. by intros ->. Qed.

Lemma postBooking_consistent now req st :
  consistent st -> consistent (snd (postBooking now req st)).
Proof.
  intros [Hnd Hheld].
  destruct (postBooking_cases now req st)
    as [[_ ->]|(seatIds & _ & _ & _ &
                [[_ ->]|(m & sh & Hfind & [[_ ->]|[Hnil ->]])])];
    try done.
  set (bn := Booking.mk _ _ _ _ _). simpl.
  apply findShowtime_resolve in Hfind.
  assert (forall b v, In b (bookings st) ->
            Booking.showtimeId b = showtimeId req ->
            In v (Booking.seats b) -> In v seatIds -> False) as Hfree.
  { intros b v Hb Hsid Hv Hv'.
    assert (seatUnavailable sh v = true) as Htaken.
    { apply (Hheld b sh v); try done. by rewrite Hsid. }
    by rewrite (unavailable_nil _ _ _ Hnil Hv') in Htaken. }
  split.
  - intros i j b1 b2 v Hij H1 H2 Hsid Hv1 Hv2. simpl in H1, H2.
    apply lookup_app_Some in H1 as [H1|[Hi H1]];
      apply lookup_app_Some in H2 as [H2|[Hj H2]].
    + by apply (Hnd i j b1 b2 v).
    + apply list_lookup_singleton_Some in H2 as [_ <-].
      apply (Hfree b1 v); try done.
      apply list_elem_of_In, list_elem_of_lookup. eauto.
    + apply list_lookup_singleton_Some in H1 as [_ <-].
      apply (Hfree b2 v); try done.
      apply list_elem_of_In, list_elem_of_lookup. eauto.
    + apply list_lookup_singleton_Some in H1 as [H1 _].
      apply list_lookup_singleton_Some in H2 as [H2 _]. lia.
  - intros b sh' v Hb Hres Hv. simpl in Hb, Hres.
    apply in_app_or in Hb as [Hb|[<-|[]]].
    + destruct (resolve_touch (hasShowtime (showtimeId req)) (showtimeId req)
                  (markSeats "booked" seatIds) (movies st)
                  (Booking.showtimeId b)) as [Hsame|[Hsid Hnew]].
      * unfold markShowtime in Hres. rewrite Hsame in Hres.
        by apply (Hheld b sh' v).
      * unfold markShowtime in Hres. rewrite Hnew in Hres.
        destruct (resolveShowtime (Booking.showtimeId b) (movies st))
          as [sh0|] eqn:Hsh0; [|done].
        injection Hres as <-. apply seatUnavailable_booked_stays.
        by apply (Hheld b sh0 v).
    + simpl in Hres, Hv. rewrite resolve_markShowtime, Hfind in Hres.
      injection Hres as <-. by apply seatUnavailable_booked.
Qed.

(** Positions of the ledger once the entry behind [pre] is gone. *)
Lemma lookup_removed {A} (pre : list A) b post i x :
  (pre ++ post) !! i = Some x ->
  exists i', (pre ++ b :: post) !! i' = Some x /\ i' <> length pre /\
             i' = (if decide (i < length pre)%nat then i else S i).
Proof.
  intros H. destruct (decide (i < length pre)%nat) as [Hlt|Hge].
  - exists i. rewrite lookup_app_l in H |- * by done. repeat split; [done|lia].
  - exists (S i). rewrite lookup_app_r in H |- * by lia.
    replace (S i - length pre)%nat with (S (i - length pre)) by lia.
    repeat split; [done|lia].
Qed.

Lemma deleteBooking_consistent id st :
  consistent st -> consistent (snd (deleteBooking id st)).
Proof.
  intros [Hnd Hheld].
  destruct (deleteBooking_cases id st)
    as [[_ ->]|(pre & b & post & Hl & _ & _ & ->)]; [done|]. simpl.
  assert ((bookings st) !! length pre = Some b) as Hb.
  { rewrite Hl. by apply list_lookup_middle. }
  split.
  - intros i j b1 b2 v Hij H1 H2 Hsid Hv1 Hv2. simpl in H1, H2.
    apply (lookup_removed pre b post) in H1 as (i' & H1 & _ & Hi').
    apply (lookup_removed pre b post) in H2 as (j' & H2 & _ & Hj').
    rewrite <- Hl in H1, H2. apply (Hnd i' j' b1 b2 v); try done.
    subst i' j'. repeat case_decide; lia.
  - intros b' sh' v Hb' Hres Hv. simpl in Hb', Hres.
    apply list_elem_of_In, list_elem_of_lookup in Hb' as [i Hi].
    apply (lookup_removed pre b post) in Hi as (i' & Hi & Hne & _).
    rewrite <- Hl in Hi.
    assert (In b' (bookings st)) as Hin.
    { apply list_elem_of_In, list_elem_of_lookup. eauto. }
    destruct (resolve_freeSeats b (movies st) (Booking.showtimeId b'))
      as [Hsame|[Hsid Hnew]].
    + rewrite Hsame in Hres. by apply (Hheld b' sh' v).
    + rewrite Hnew in Hres.
      destruct (resolveShowtime (Booking.showtimeId b') (movies st))
        as [sh0|] eqn:Hsh0; [|done].
      injection Hres as <-.
      rewrite seatUnavailable_alt, seatStatus_markSeats_notin.
      * rewrite <- seatUnavailable_alt. by apply (Hheld b' sh0 v).
      * intros Hvb. by apply (Hnd i' (length pre) b' b v).
Qed.

Lemma step_consistent st op : consistent st -> consistent (snd (step st op)).
Proof.
  destruct op; simpl; auto using postBooking_consistent,
                                 deleteBooking_consistent.
Qed.

Lemma run_consistent ops : forall st, consistent st -> consistent (run st ops).
Proof.
  unfold run. induction ops as [|op ops IH]; intros st Hst; [done|].
  simpl. apply IH. by apply step_consistent.
Qed.

Lemma seeded_consistent iso : consistent (seeded iso).
Proof.
  split.
  - intros i j b1 b2 v _ H. simpl in H. by rewrite lookup_nil in H.
  - intros b sh v [].
Qed.

(** C1. Whatever bookings and cancellations are served one after the
    other from the seeded files, no seat id is in the seat lists of two
    entries of the ledger for the same showing. *)
Theorem no_double_booking iso ops : noDoubleBooking (run (seeded iso) ops).
Proof. apply run_consistent, seeded_consistent. Qed.

(** The same seen from the requests: once a booking is accepted, a
    request for the same showing that shares a seat with it is refused with
    409, the shared seat among the reported ones, until a cancellation. *)
Lemma overlapping_request_refused now1 req1 st b1 st1 now2 req2 ids2 v :
  postBooking now1 req1 st = (Booked b1, st1) ->
  truthy (customerName req2) = true ->
  showtimeId req2 = showtimeId req1 ->
  seats req2 = JArr ids2 ->
  In v (Booking.seats b1) ->
  In v ids2 ->
  exists busy,
    postBooking now2 req2 st1 = (SeatsUnavailable busy, st1) /\ In v busy.
Proof.
  intros (ids1 & m & sh & _ & Hsid1 & _ & Hfind & _ & -> & ->)
           %postBooking_booked Hname Hsid Hseats Hv1 Hv2.
  simpl in Hv1.
  apply findShowtime_resolve in Hfind.
  pose proof (resolve_markShowtime (showtimeId req1)
                (markSeats "booked" ids1) (movies st)) as Hres.
  rewrite Hfind in Hres. simpl in Hres. unfold resolveShowtime in Hres.
  set (st1 := Store _ _).
  change (markShowtime _ _ _) with (movies st1) in Hres.
  destruct (findShowtime (showtimeId req1) (movies st1))
    as [[m1 sh1]|] eqn:Hfind1; [|done].
  injection Hres as ->.
  pose proof (postBooking_checked now2 req2 st1 ids2 m1
                (Showtime.withSeats (markSeats "booked" ids1) sh)
                Hname) as Hrep.
  rewrite Hsid in Hrep. specialize (Hrep Hsid1 Hseats Hfind1).
  assert (In v (unavailable ids2
                  (Showtime.withSeats (markSeats "booked" ids1) sh))) as Hbusy.
  { apply filter_In. split; [done|]. by apply seatUnavailable_booked. }
  destruct (unavailable ids2 _) as [|w busy]; [done|].
  exists (w :: busy). done.
Qed.

(** ** Cancellation round trip *)

Lemma movie_found mid (pre : list Movie.t) m post :
  NoDup (List.map Movie.id (pre ++ m :: post)) ->
  Movie.id m = mid ->
  Forall (fun mm => movieIs mid mm = false) pre.
Proof.
  intros Hnd <-. apply Forall_forall. intros x Hx.
  apply String.eqb_neq. intros Heq.
  rewrite map_app in Hnd. simpl in Hnd.
  apply NoDup_app in Hnd as (_ & Hdisj & _).
  apply (Hdisj (Movie.id x)).
  - apply list_elem_of_In, in_map. by apply list_elem_of_In.
  - rewrite Heq. left.
Qed.

(** Freeing the seats of a booking that has just been made restores the
    catalog, when the movie id of the booking leads back to its movie. *)
Lemma freeSeats_markShowtime b sid ids ms m s :
  NoDup (List.map Movie.id ms) ->
  findShowtime sid ms = Some (m, s) ->
  unavailable ids s = [] ->
  Booking.movieId b = Movie.id m ->
  Booking.showtimeId b = sid ->
  Booking.seats b = ids ->
  freeSeats b (markShowtime sid (markSeats "booked" ids) ms) = ms.
Proof.
  intros Hnd Hfind Hnil Hmid Hsid Hids.
  destruct (findShowtime_split _ _ _ _ Hfind)
    as (pre & post & spre & spost & -> & Hpre & Hm & Hspre & Hs).
  rewrite (markShowtime_split sid _ pre m post spre s spost) by done.
  pose proof (movie_found (Movie.id m) pre m post Hnd eq_refl) as Hpre'.
  unfold freeSeats. rewrite Hmid, Hsid, Hids.
  rewrite find_app_skip by done. cbn [List.find Movie.id].
  rewrite String.eqb_refl. cbn [Movie.showtimes].
  rewrite showtime_found by done.
  rewrite updateFirst_app_skip by done. cbn [updateFirst Movie.id].
  rewrite String.eqb_refl. unfold Movie.withShowtimes.
  cbn [Movie.id Movie.title Movie.duration Movie.showtimes].
  rewrite updateFirst_app_skip by done. cbn [updateFirst Showtime.id].
  rewrite Hs. unfold Showtime.withSeats.
  cbn [Showtime.id Showtime.time Showtime.seats].
  rewrite markSeats_back.
  - destruct m as [mi mt md mshows], s as [si st ss]. simpl in *.
    by rewrite Hm.
  - intros v y Hv Hy.
    pose proof (unavailable_nil _ _ _ Hnil Hv) as Hav.
    unfold seatUnavailable in Hav. rewrite Hy in Hav.
    apply negb_false_iff, String.eqb_eq in Hav. done.
Qed.

(** Cancelling a booking right after it was made gives back the store as it
    was, when the id of the booking is not already in the ledger and the
    movie ids of the catalog are pairwise distinct. *)
Lemma create_then_cancel_restores now req st b st1 :
  postBooking now req st = (Booked b, st1) ->
  Forall (fun x => Booking.id x <> Booking.id b) (bookings st) ->
  NoDup (List.map Movie.id (movies st)) ->
  deleteBooking (Booking.id b) st1 = (Canceled (Booking.id b), st).
Proof.
  intros (seatIds & m & s & _ & _ & _ & Hfind & Hnil & Hb & ->)
           %postBooking_booked Hfresh Hnd.
  rewrite (deleteBooking_found (Booking.id b) _ (bookings st) b []);
    try done.
  cbn [movies].
  rewrite (freeSeats_markShowtime b _ seatIds _ m s); try done; try by subst b.
  rewrite app_nil_r. by destruct st.
Qed.

(** The round trip of the specification, under the same two conditions:
    the cancellation succeeds, every seat of the booking is available again,
    and the same request is accepted again. *)
Lemma booking_round_trip now req st b st1 now' :
  postBooking now req st = (Booked b, st1) ->
  Forall (fun x => Booking.id x <> Booking.id b) (bookings st) ->
  NoDup (List.map Movie.id (movies st)) ->
  exists st2,
    deleteBooking (Booking.id b) st1 = (Canceled (Booking.id b), st2) /\
    (forall sh v,
        resolveShowtime (Booking.showtimeId b) (movies st2) = Some sh ->
        In v (Booking.seats b) -> isAvailable sh v) /\
    exists b', fst (postBooking now' req st2) = Booked b' /\
               Booking.seats b' = Booking.seats b.
Proof.
  intros Hpost Hfresh Hnd. exists st.
  split; [by eapply create_then_cancel_restores|].
  apply postBooking_booked in Hpost
    as (seatIds & m & s & Hname & Hsid & Hseats & Hfind & Hnil & -> & _).
  cbn [Booking.seats Booking.showtimeId]. split.
  - intros sh v Hres Hv.
    rewrite (findShowtime_resolve _ _ _ _ Hfind) in Hres.
    injection Hres as <-.
    apply seatUnavailable_status. by eapply unavailable_nil.
  - pose proof (postBooking_checked now' req st seatIds m s
                  Hname Hsid Hseats Hfind) as Hrep.
    by rewrite Hnil in Hrep.
Qed.

(** The handlers never add, drop or rename a movie. *)
Lemma moviesDifferOnlyOn_ids ids s before after :
  moviesDifferOnlyOn ids s before after ->
  List.map Movie.id after = List.map Movie.id before.
Proof.
  induction 1 as [|x y l l' (Hid & _) _ IH]; simpl; [done|].
  by rewrite Hid, IH.
Qed.

Lemma step_movie_ids st op :
  List.map Movie.id (movies (snd (step st op))) = List.map Movie.id (movies st).
Proof.
  destruct op as [now req|id]; simpl.
  - postBooking_exits now req st; try done.
    eapply moviesDifferOnlyOn_ids, touch_frame. intros l. apply markSeats_frame.
  - destruct (deleteBooking_cases id st)
      as [[_ ->]|(pre & b & post & _ & _ & _ & ->)]; [done|]. simpl.
    eapply moviesDifferOnlyOn_ids, freeSeats_frame.
Qed.

Lemma run_movie_ids ops st :
  List.map Movie.id (movies (run st ops)) = List.map Movie.id (movies st).
Proof.
  revert st. unfold run. induction ops as [|op ops IH]; intros st; [done|].
  simpl. by rewrite IH, step_movie_ids.
Qed.

(** From the seeded files the round trip holds whenever the id of the new
    booking is not already in the ledger. *)
Lemma seeded_round_trip iso ops now req b st1 now' :
  postBooking now req (run (seeded iso) ops) = (Booked b, st1) ->
  Forall (fun x => Booking.id x <> Booking.id b)
         (bookings (run (seeded iso) ops)) ->
  exists st2,
    deleteBooking (Booking.id b) st1 = (Canceled (Booking.id b), st2) /\
    (forall sh v,
        resolveShowtime (Booking.showtimeId b) (movies st2) = Some sh ->
        In v (Booking.seats b) -> isAvailable sh v) /\
    exists b', fst (postBooking now' req st2) = Booked b' /\
               Booking.seats b' = Booking.seats b.
Proof.
  intros Hpost Hfresh.
  apply (booking_round_trip now req (run (seeded iso) ops) b st1); try done.
  rewrite run_movie_ids. simpl. apply NoDup_singleton.
Qed.

(** ** Booking ids *)

Lemma bookingId_inj now1 now2 : bookingId now1 = bookingId now2 -> now1 = now2.
Proof. unfold bookingId. simpl. intros [= H]. by apply pretty_Z_inj. Qed.

Lemma postBooking_id now req st b st' :
  postBooking now req st = (Booked b, st') -> Booking.id b = bookingId now.
Proof.
  by intros (? & ? & ? & _ & _ & _ & _ & _ & -> & _)%postBooking_booked.
Qed.

(** Two bookings have the same id exactly when they were made at the same
    clock reading. *)
Lemma booking_ids_follow_clock now1 req1 st1 b1 st1' now2 req2 st2 b2 st2' :
  postBooking now1 req1 st1 = (Booked b1, st1') ->
  postBooking now2 req2 st2 = (Booked b2, st2') ->
  Booking.id b1 = Booking.id b2 <-> now1 = now2.
Proof.
  intros ->%postBooking_id ->%postBooking_id. split.
  - apply bookingId_inj.
  - by intros ->.
Qed.

(** C9, at the failing input.  Alice and Carol are served within the same
    millisecond on the seeded store: both requests are accepted, the ledger
    holds two different bookings, and they carry the same id. *)
Theorem same_millisecond_same_booking_id :
  fst (postBooking aliceClock aliceRequest scenarioStart) = Booked aliceBooking
  /\ fst (postBooking aliceClock carolRequest aliceBooked) = Booked carolBooking
  /\ bookings carolBooked = [aliceBooking; carolBooking]
  /\ aliceBooking <> carolBooking
  /\ Booking.id aliceBooking = Booking.id carolBooking.
Proof. vm_compute. repeat split. discriminate. Qed.

(** C4, at the failing input.  Carol books A3 within the same millisecond
    as Alice, so her booking gets the id Alice's booking already has.
    Cancelling the returned id removes Alice's booking and frees A1 and A2;
    Carol's booking stays in the ledger, A3 stays booked, and her request
    for A3 is then refused with 409. *)
Theorem cancel_by_colliding_id_misses_booking :
  fst (postBooking aliceClock carolRequest aliceBooked) = Booked carolBooking
  /\ deleteBooking (Booking.id carolBooking) carolBooked
     = (Canceled (Booking.id carolBooking),
        Store (movies (snd (postBooking aliceClock carolRequest scenarioStart)))
              [carolBooking])
  /\ (resolveShowtime (JStr "s1")
        (movies (snd (deleteBooking (Booking.id carolBooking) carolBooked)))
        ≫= fun sh => seatStatus sh (JStr "A3")) = Some "booked"
  /\ fst (postBooking bobClock carolRequest
            (snd (deleteBooking (Booking.id carolBooking) carolBooked)))
     = SeatsUnavailable [JStr "A3"].
Proof. vm_compute. repeat split. Qed.

(** ** Listing the bookings *)

Lemma prefix_spec q s :
  String.prefix q s = true <-> exists after, s = q +:+ after.
Proof.
  revert s. induction q as [|c q IH]; intros [|d s]; simpl.
  - split; [by exists ""|done].
  - split; [by exists (String d s)|done].
  - split; [done|by intros [? ?]].
  - destruct (ascii_dec c d) as [->|Hne].
    + rewrite IH. split; intros [after H]; exists after.
      * by rewrite H.
      * by injection H.
    + split; [done|]. intros [after [= ? ?]]. done.
Qed.

(** [includes] is the substring test. *)
Lemma includes_spec q s :
  includes q s = true <-> exists before after, s = before +:+ q +:+ after.
Proof.
  induction s as [|c s IH]; cbn [includes];
    rewrite orb_true_iff, prefix_spec.
  - split.
    + intros [[after H]|H]; [|done]. by exists "", after.
    + intros ([|? ?] & after & H); [|done]. left. by exists after.
  - rewrite IH. split.
    + intros [[after H]|(before & after & H)].
      * by exists "", after.
      * exists (String c before), after. simpl. by rewrite H.
    + intros ([|d before] & after & H).
      * left. by exists after.
      * right. injection H as _ H. by exists before, after.
Qed.

Lemma toLowerCase_empty s : toLowerCase s = "" <-> s = "".
Proof. by destruct s. Qed.

Lemma stringOrFalsy_text v :
  stringOrFalsy v -> orEmpty v = JStr (textOf v).
Proof.
  unfold textOf, orEmpty. intros [Hf|[s ->]].
  - by rewrite Hf.
  - by destruct (truthy (JStr s)).
Qed.

Lemma customerMatches_text q b :
  stringOrFalsy (Booking.customerName b) ->
  customerMatches q b = Some (includes q (toLowerCase (nameOf b))).
Proof.
  intros H. unfold customerMatches, nameOf.
  by rewrite (stringOrFalsy_text _ H).
Qed.

Lemma filterThrowing_total (p : Booking.t -> option bool) keep bs :
  Forall (fun b => p b = Some (keep b)) bs ->
  filterThrowing p bs = Some (List.filter keep bs).
Proof.
  induction 1 as [|b bs Hb _ IH]; simpl; [done|].
  rewrite Hb, IH. simpl. by destruct (keep b).
Qed.

(** The listing on a ledger whose customer names are strings, in the
    model's reading of [toLowerCase] (ASCII letters).  When the filter is
    absent or a string and every customer name of the ledger is a string (a
    falsy one counting as the empty string), [GET /api/bookings] answers 200
    with the bookings whose name contains the filter, letter case ignored,
    in ledger order; that is the whole ledger when the filter is absent or
    empty.  The store is left as it was, also when the handler raises. *)
Theorem getBookings_lists_matching customer st :
  stringOrFalsy customer ->
  Forall (fun b => stringOrFalsy (Booking.customerName b)) (bookings st) ->
  (exists keep : Booking.t -> bool,
      (forall b, keep b = true
                 <-> containsIgnoringCase (textOf customer) (nameOf b)) /\
      getBookings customer st
      = (BookingList (List.filter keep (bookings st)), st))
  /\ (textOf customer = "" ->
      getBookings customer st = (BookingList (bookings st), st))
  /\ forall anyFilter, snd (getBookings anyFilter st) = st.
Proof.
  intros Hq Hnames.
  assert (forall anyFilter, snd (getBookings anyFilter st) = st) as Hpure.
  { intros f. unfold getBookings.
    destruct (toLowerCaseOf (orEmpty f)) as [q|]; [|done].
    destruct (negb (truthy (JStr q))); [done|].
    by destruct (filterThrowing _ _). }
  unfold getBookings. rewrite (stringOrFalsy_text _ Hq).
  cbn [toLowerCaseOf]. set (q := toLowerCase (textOf customer)).
  assert (filterThrowing (customerMatches q) (bookings st)
          = Some (List.filter
                    (fun b => includes q (toLowerCase (nameOf b)))
                    (bookings st))) as Hfilter.
  { apply filterThrowing_total. eapply Forall_impl; [exact Hnames|].
    intros b Hb. by apply customerMatches_text. }
  split; [|split; [|exact Hpure]].
  - exists (fun b => includes q (toLowerCase (nameOf b))). split.
    + intros b. apply includes_spec.
    + simpl. destruct (q =? "")%string eqn:Hempty; simpl.
      * apply String.eqb_eq in Hempty. rewrite Hempty.
        f_equal. f_equal. symmetry. apply forallb_filter_id.
        apply forallb_forall. intros b _. apply includes_spec.
        by exists "", (toLowerCase (nameOf b)).
      * by rewrite Hfilter.
  - intros Hempty. subst q. rewrite Hempty. done.
Qed.

Lemma getBookings_lists_matching_witness :
  (exists keep : Booking.t -> bool,
      (forall b, keep b = true
                 <-> containsIgnoringCase (textOf (JStr "LIC")) (nameOf b)) /\
      getBookings (JStr "LIC") aliceBooked
      = (BookingList (List.filter keep (bookings aliceBooked)), aliceBooked))
  /\ (textOf (JStr "LIC") = "" ->
      getBookings (JStr "LIC") aliceBooked
      = (BookingList (bookings aliceBooked), aliceBooked))
  /\ forall anyFilter, snd (getBookings anyFilter aliceBooked) = aliceBooked.
Proof.
  apply (getBookings_lists_matching (JStr "LIC") aliceBooked).
  - right. by exists "LIC".
  - change (bookings aliceBooked) with [aliceBooking].
    constructor; [right; by exists "Alice"|constructor].
Defined.

(** C8, at the failing input.  A request whose customer name is the
    number 5 passes validation and is answered 201, so the ledger holds a
    booking with that name.  A listing with the filter [a] should answer
    with the bookings whose name contains it, here none; the handler calls
    [toLowerCase] on the number and raises instead. *)
Theorem listing_raises_on_numeric_name :
  let st := snd (postBooking aliceClock numericNameRequest scenarioStart) in
  statusCode (fst (postBooking aliceClock numericNameRequest scenarioStart))
    = Some 201
  /\ List.map Booking.customerName (bookings st) = [JNum 5]
  /\ fst (getBookings (JStr "a") st) = Threw.
Proof. vm_compute. repeat split. Qed.

(** ** The scenario of the specification, step by step *)

Example scenario_alice_then_bob :
  let ops :=
    [ CreateBooking aliceClock aliceRequest;
      CreateBooking bobClock bobRequest;
      CancelBooking (bookingId aliceClock);
      CreateBooking bobClock bobRequest ] in
  responses scenarioStart ops
  = [ Booked aliceBooking;
      SeatsUnavailable [JStr "A2"];
      Canceled (bookingId aliceClock);
      Booked (Booking.mk (bookingId bobClock) (JStr "Bob") "m1" (JStr "s1")
                         [JStr "A2"; JStr "A3"]) ]
  /\ List.map statusCode (responses scenarioStart ops)
     = [Some 201; Some 409; Some 200; Some 201]
  /\ List.map (fun v => resolveShowtime (JStr "s1") (movies aliceBooked)
                          ≫= fun sh => seatStatus sh v)
              [JStr "A1"; JStr "A2"; JStr "A3"]
     = [Some "booked"; Some "booked"; Some "available"]
  /\ run scenarioStart (firstn 2 ops) = aliceBooked
  /\ run scenarioStart (firstn 3 ops) = scenarioStart
  /\ List.map Booking.seats (bookings (run scenarioStart ops))
     = [[JStr "A2"; JStr "A3"]].
Proof. vm_compute. repeat split. Qed.

(** * Further properties of the handlers *)

(** ** GET /api/showtimes/:id/seats *)

Lemma findShowtime_app_skip sid pre l :
  Forall (fun m' => hasShowtime sid m' = false) pre ->
  findShowtime sid (pre ++ l) = findShowtime sid l.
Proof.
  induction 1 as [|m pre Hm _ IH]; simpl; [done|].
  destruct (List.find (showIs sid) (Movie.showtimes m)) as [s|] eqn:Hs; [|done].
  apply bool_decide_eq_false in Hm. destruct Hm. eauto.
Qed.

(** The seats route walks the catalog the way the booking route does. *)
Lemma seatsOfShowtime_findShowtime id ms :
  seatsOfShowtime id ms =
  match findShowtime (JStr id) ms with
  | None => SeatsShowtimeNotFound
  | Some (m, s) =>
      SeatsOk (SeatsView.mk (Movie.title m) (Showtime.id s) (Showtime.time s)
                            (Showtime.seats s))
  end.
Proof.
  induction ms as [|m rest IH]; simpl; [done|].
  change (fun x : Showtime.t => (Showtime.id x =? id)%string)
    with (showIs (JStr id)).
  by destruct (List.find (showIs (JStr id)) (Movie.showtimes m)).
Qed.

(** X1. [GET /api/showtimes/:id/seats] answers 404 exactly when a booking
    request for the showtime id would: when the id resolves, the view holds
    the title of the movie and the id, time and seats of the very showtime
    that [POST /api/bookings] checks and marks. *)
Theorem getShowtimeSeats_resolves_like_booking id st :
  match findShowtime (JStr id) (movies st) with
  | None => fst (getShowtimeSeats id st) = SeatsShowtimeNotFound
  | Some (m, s) =>
      fst (getShowtimeSeats id st)
      = SeatsOk (SeatsView.mk (Movie.title m) (Showtime.id s)
                              (Showtime.time s) (Showtime.seats s))
  end.
Proof.
  unfold getShowtimeSeats. simpl. rewrite seatsOfShowtime_findShowtime.
  by destruct (findShowtime (JStr id) (movies st)) as [[m s]|].
Qed.

(** X2. After an accepted booking the seats route shows it: the view of the
    booked showtime has the same title, id and time as before, every seat of
    the booking reads [booked] where it read [available], and no other
    seat entry differs. *)
Theorem seats_view_after_booking now req st b st' :
  postBooking now req st = (Booked b, st') ->
  exists id view view',
    showtimeId req = JStr id /\
    fst (getShowtimeSeats id st) = SeatsOk view /\
    fst (getShowtimeSeats id st') = SeatsOk view' /\
    SeatsView.movieTitle view' = SeatsView.movieTitle view /\
    SeatsView.showtimeId view' = SeatsView.showtimeId view /\
    SeatsView.time view' = SeatsView.time view /\
    seatsDifferOnlyOn (Booking.seats b) "booked"
      (SeatsView.seats view) (SeatsView.seats view') /\
    forall i, In (JStr i) (Booking.seats b) ->
      viewStatus view i = Some "available" /\
      viewStatus view' i = Some "booked".
Proof.
  intros (ids & m & s & _ & _ & _ & Hfind & Hnil & -> & ->)
           %postBooking_booked.
  destruct (findShowtime_split _ _ _ _ Hfind)
    as (pre & post & spre & spost & Hms & Hpre & Hm & Hspre & Hs).
  pose proof Hs as Hsid. apply strictEq_true in Hsid.
  exists (Showtime.id s). do 2 eexists. split; [exact Hsid|].
  unfold getShowtimeSeats. cbn [fst movies Booking.seats].
  rewrite !seatsOfShowtime_findShowtime, <- Hsid, Hfind.
  rewrite Hms, (markShowtime_split _ _ pre m post spre s spost) by done.
  rewrite findShowtime_app_skip by done. cbn [findShowtime Movie.showtimes].
  rewrite showtime_found by done.
  split; [reflexivity|]. split; [reflexivity|]. cbn.
  repeat split; try apply markSeats_frame.
  - apply (seatUnavailable_status s (JStr i)). by eapply unavailable_nil.
  - change (seatStatus (Showtime.withSeats (markSeats "booked" ids) s) (JStr i)
            = Some "booked").
    rewrite seatStatus_markSeats_in by done.
    assert (isAvailable s (JStr i)) as Hav.
    { apply seatUnavailable_status. by eapply unavailable_nil. }
    unfold isAvailable in Hav. by rewrite Hav.
Qed.

Lemma seats_view_after_booking_witness :
  exists id view view',
    showtimeId aliceRequest = JStr id /\
    fst (getShowtimeSeats id scenarioStart) = SeatsOk view /\
    fst (getShowtimeSeats id aliceBooked) = SeatsOk view' /\
    SeatsView.movieTitle view' = SeatsView.movieTitle view /\
    SeatsView.showtimeId view' = SeatsView.showtimeId view /\
    SeatsView.time view' = SeatsView.time view /\
    seatsDifferOnlyOn (Booking.seats aliceBooking) "booked"
      (SeatsView.seats view) (SeatsView.seats view') /\
    forall i, In (JStr i) (Booking.seats aliceBooking) ->
      viewStatus view i = Some "available" /\
      viewStatus view' i = Some "booked".
Proof.
  apply (seats_view_after_booking aliceClock aliceRequest scenarioStart).
  vm_compute. reflexivity.
Defined.

(** ** The exits of POST /api/bookings *)


(** X4. A booking request is accepted exactly when it passes validation,
    its showtime resolves and every requested seat id is available in that
    showtime. *)
Theorem postBooking_accepted_iff now req st :
  (exists b, fst (postBooking now req st) = Booked b)
  <-> exists seatIds movie showtime,
        truthy (customerName req) = true /\
        truthy (showtimeId req) = true /\
        seats req = JArr seatIds /\
        findShowtime (showtimeId req) (movies st) = Some (movie, showtime) /\
        forall v, In v seatIds -> isAvailable showtime v.
Proof.
  split.
  - intros [b Hb].
    destruct (postBooking now req st) as [r st'] eqn:Hpost. simpl in Hb.
    subst r. apply postBooking_booked in Hpost
      as (ids & m & s & Hname & Hsid & Hseats & Hfind & Hnil & _ & _).
    exists ids, m, s. repeat split; try done.
    intros v Hv. apply seatUnavailable_status. by eapply unavailable_nil.
  - intros (ids & m & s & Hname & Hsid & Hseats & Hfind & Hav).
    pose proof (postBooking_checked now req st ids m s Hname Hsid Hseats Hfind)
      as Hrep.
    destruct (unavailable ids s) as [|v busy] eqn:Hbusy.
    + destruct Hrep as (b & Hb & _). by exists b.
    + assert (In v (unavailable ids s)) as Hv by (rewrite Hbusy; left; done).
      apply filter_In in Hv as [Hin Hun].
      apply Hav, seatUnavailable_status in Hin. congruence.
Qed.

(** X5. The booking that an accepted request writes: its id is the clock
    reading behind a [b], its showtime id and seat list are the request's,
    its customer name is the request's when that is a string, its movie id
    is the id of the movie that holds the showtime, the showtime id is a
    string, and every seat id in it is a string that names a seat of that
    showtime. *)
Theorem postBooking_booking_fields now req st b st' :
  postBooking now req st = (Booked b, st') ->
  Booking.id b = bookingId now /\
  (forall name, customerName req = JStr name ->
                Booking.customerName b = JStr name) /\
  Booking.showtimeId b = showtimeId req /\
  seats req = JArr (Booking.seats b) /\
  exists movie showtime,
    findShowtime (showtimeId req) (movies st) = Some (movie, showtime) /\
    Booking.movieId b = Movie.id movie /\
    Booking.showtimeId b = JStr (Showtime.id showtime) /\
    forall v, In v (Booking.seats b) ->
      exists seat, In seat (Showtime.seats showtime) /\ v = JStr (Seat.id seat).
Proof.
  intros (ids & m & s & _ & _ & Hseats & Hfind & Hnil & -> & _)
           %postBooking_booked.
  cbn [Booking.id Booking.customerName Booking.showtimeId Booking.seats
       Booking.movieId].
  split; [done|]. split; [by intros name <-|]. split; [done|].
  split; [done|]. exists m, s. split; [done|]. split; [done|]. split.
  - apply findShowtime_split in Hfind
      as (_ & _ & _ & _ & _ & _ & _ & _ & Hs%strictEq_true). done.
  - intros v Hv. pose proof (unavailable_nil _ _ _ Hnil Hv) as Hav.
    unfold seatUnavailable in Hav.
    destruct (List.find (seatIs v) (Showtime.seats s)) as [seat|] eqn:Hseat;
      [|done].
    apply find_some in Hseat as [Hin Hid%strictEq_true]. eauto.
Qed.

Lemma postBooking_booking_fields_witness :
  Booking.id aliceBooking = bookingId aliceClock /\
  (forall name, customerName aliceRequest = JStr name ->
                Booking.customerName aliceBooking = JStr name) /\
  Booking.showtimeId aliceBooking = showtimeId aliceRequest /\
  seats aliceRequest = JArr (Booking.seats aliceBooking) /\
  exists movie showtime,
    findShowtime (showtimeId aliceRequest) (movies scenarioStart)
      = Some (movie, showtime) /\
    Booking.movieId aliceBooking = Movie.id movie /\
    Booking.showtimeId aliceBooking = JStr (Showtime.id showtime) /\
    forall v, In v (Booking.seats aliceBooking) ->
      exists seat, In seat (Showtime.seats showtime) /\ v = JStr (Seat.id seat).
Proof.
  apply (postBooking_booking_fields aliceClock aliceRequest scenarioStart
           aliceBooking aliceBooked).
  vm_compute. reflexivity.
Defined.

(** X6. Whatever [POST /api/bookings] answers, if it is not 201 then both
    files are as they were. *)
Theorem postBooking_only_201_writes now req st :
  statusCode (fst (postBooking now req st)) <> Some 201 ->
  snd (postBooking now req st) = st.
Proof. apply postBooking_refused_no_effect. Qed.

Lemma postBooking_only_201_writes_witness :
  snd (postBooking aliceClock
         (BookingRequest (JStr "Alice") (JNum 1) (JArr [JStr "A1"]))
         aliceBooked)
  = aliceBooked.
Proof.
  apply (postBooking_only_201_writes aliceClock
           (BookingRequest (JStr "Alice") (JNum 1) (JArr [JStr "A1"]))
           aliceBooked).
  vm_compute. discriminate.
Defined.

(** X8. Two accepted bookings carry the same id exactly when [Date.now()]
    read the same at both requests, whatever the requests and the stores. *)
Theorem booking_id_is_the_clock
    now1 req1 st1 b1 st1' now2 req2 st2 b2 st2' :
  postBooking now1 req1 st1 = (Booked b1, st1') ->
  postBooking now2 req2 st2 = (Booked b2, st2') ->
  Booking.id b1 = Booking.id b2 <-> now1 = now2.
Proof. apply booking_ids_follow_clock. Qed.

Lemma booking_id_is_the_clock_witness :
  Booking.id aliceBooking = Booking.id carolBooking <-> aliceClock = aliceClock.
Proof.
  apply (booking_id_is_the_clock aliceClock aliceRequest scenarioStart
           aliceBooking aliceBooked aliceClock carolRequest aliceBooked
           carolBooking carolBooked).
  - vm_compute. reflexivity.
  - vm_compute. reflexivity.
Defined.

(** ** More on DELETE /api/bookings/:id *)

(** X9. [DELETE /api/bookings/:id] answers 404 [booking_not_found] exactly
    when no entry of the ledger has the id, and then both files are as they
    were; its only other answer is 200 [canceled] with the requested id, and
    then the ledger is one entry shorter. *)
Theorem deleteBooking_not_found_iff id st :
  (fst (deleteBooking id st) = BookingNotFound
   <-> Forall (fun x => Booking.id x <> id) (bookings st))
  /\ (fst (deleteBooking id st) = BookingNotFound
      /\ snd (deleteBooking id st) = st
      \/ fst (deleteBooking id st) = Canceled id
         /\ S (length (bookings (snd (deleteBooking id st))))
            = length (bookings st)).
Proof.
  destruct (deleteBooking_cases id st)
    as [[Hnone ->]|(pre & b & post & Hl & Hb & Hpre & ->)]; simpl.
  - split; [done|by left].
  - split.
    + split; [discriminate|]. rewrite Hl. intros H.
      apply Forall_app in H as [_ H]. apply Forall_cons in H as [H _]. done.
    + right. split; [done|]. rewrite Hl, !length_app. simpl. lia.
Qed.

(** X10. When the movie id and the showtime id of the cancelled booking
    resolve, the cancellation sets every seat of the booking that the seat
    map has to [available] and leaves the status of every other seat id of
    that showtime alone. *)
Theorem deleteBooking_frees_seats id st pre b post m s :
  bookings st = pre ++ b :: post ->
  Booking.id b = id ->
  Forall (fun x => Booking.id x <> id) pre ->
  List.find (movieIs (Booking.movieId b)) (movies st) = Some m ->
  List.find (showIs (Booking.showtimeId b)) (Movie.showtimes m) = Some s ->
  exists m' s',
    List.find (movieIs (Booking.movieId b))
              (movies (snd (deleteBooking id st))) = Some m' /\
    List.find (showIs (Booking.showtimeId b)) (Movie.showtimes m') = Some s' /\
    forall v,
      (In v (Booking.seats b) ->
       seatStatus s' v = (fun _ => "available") <$> seatStatus s v) /\
      (~ In v (Booking.seats b) -> seatStatus s' v = seatStatus s v).
Proof.
  intros Hl Hb Hpre Hm Hs.
  rewrite (deleteBooking_found id st pre b post) by done. cbn [snd movies].
  unfold freeSeats. rewrite Hm, Hs.
  rewrite find_updateFirst by done. rewrite Hm. cbn [fmap option_fmap option_map].
  do 2 eexists. split; [reflexivity|]. cbn [Movie.withShowtimes Movie.showtimes].
  rewrite find_updateFirst by done. rewrite Hs.
  split; [reflexivity|]. intros v. split; intros Hv.
  - by apply seatStatus_markSeats_in.
  - by apply seatStatus_markSeats_notin.
Qed.

Lemma deleteBooking_frees_seats_witness :
  exists m' s',
    List.find (movieIs (Booking.movieId aliceBooking))
              (movies (snd (deleteBooking (bookingId aliceClock) aliceBooked)))
      = Some m' /\
    List.find (showIs (Booking.showtimeId aliceBooking)) (Movie.showtimes m')
      = Some s' /\
    forall v,
      (In v (Booking.seats aliceBooking) ->
       seatStatus s' v
       = (fun _ => "available")
           <$> seatStatus
                 (Showtime.mk "s1" scenarioIso
                    (markSeats "booked" [JStr "A1"; JStr "A2"] seedSeats)) v) /\
      (~ In v (Booking.seats aliceBooking) ->
       seatStatus s' v
       = seatStatus
           (Showtime.mk "s1" scenarioIso
              (markSeats "booked" [JStr "A1"; JStr "A2"] seedSeats)) v).
Proof.
  apply (deleteBooking_frees_seats (bookingId aliceClock) aliceBooked
           [] aliceBooking []
           (Movie.mk "m1" "Avengers: Endgame" 180
              [Showtime.mk "s1" scenarioIso
                 (markSeats "booked" [JStr "A1"; JStr "A2"] seedSeats)])).
  - vm_compute. reflexivity.
  - reflexivity.
  - constructor.
  - vm_compute. reflexivity.
  - vm_compute. reflexivity.
Defined.

(** X11. When the ids of the ledger are pairwise distinct, a cancellation
    that succeeded cannot be repeated: the same request is then answered
    404 and changes nothing. *)
Theorem deleteBooking_twice id st :
  NoDup (List.map Booking.id (bookings st)) ->
  fst (deleteBooking id st) = Canceled id ->
  deleteBooking id (snd (deleteBooking id st))
  = (BookingNotFound, snd (deleteBooking id st)).
Proof.
  intros Hnd Hfirst.
  destruct (deleteBooking_cases id st)
    as [[_ H]|(pre & b & post & Hl & Hb & Hpre & H)];
    rewrite H in Hfirst |- *; [discriminate|]. cbn [snd].
  set (st1 := Store _ _).
  destruct (deleteBooking_cases id st1) as [[_ ->]|(pre' & b' & post' & Hl' & Hb' & _)];
    [done|]. exfalso.
  assert (In b' (pre ++ post)) as Hin.
  { change (pre ++ post) with (bookings st1). rewrite Hl'.
    apply in_or_app. right. by left. }
  rewrite Hl, map_app in Hnd. simpl in Hnd.
  apply NoDup_app in Hnd as (_ & Hdisj & [Hb_post _]%NoDup_cons).
  apply in_app_or in Hin as [Hin|Hin].
  - rewrite Forall_forall in Hpre. apply (Hpre b'); [|done].
    by apply list_elem_of_In.
  - apply Hb_post. rewrite Hb, <- Hb'.
    apply list_elem_of_In, in_map, Hin.
Qed.

Lemma deleteBooking_twice_witness :
  deleteBooking (bookingId aliceClock)
    (snd (deleteBooking (bookingId aliceClock) aliceBooked))
  = (BookingNotFound, snd (deleteBooking (bookingId aliceClock) aliceBooked)).
Proof.
  apply (deleteBooking_twice (bookingId aliceClock) aliceBooked).
  - change (bookings aliceBooked) with [aliceBooking]. simpl.
    apply NoDup_singleton.
  - vm_compute. reflexivity.
Defined.

(** X12. A booking followed by the cancellation of the id it was given is
    the identity on the two files, when that id was not yet in the ledger
    and the movie ids of the catalog are pairwise distinct. *)
Theorem run_create_cancel_identity now req st b st1 :
  postBooking now req st = (Booked b, st1) ->
  Forall (fun x => Booking.id x <> bookingId now) (bookings st) ->
  NoDup (List.map Movie.id (movies st)) ->
  responses st [CreateBooking now req; CancelBooking (bookingId now)]
  = [Booked b; Canceled (bookingId now)]
  /\ run st [CreateBooking now req; CancelBooking (bookingId now)] = st.
Proof.
  intros Hpost Hfresh Hnd.
  pose proof (postBooking_id _ _ _ _ _ Hpost) as Hid.
  rewrite <- Hid in Hfresh |- *.
  pose proof (create_then_cancel_restores _ _ _ _ _ Hpost Hfresh Hnd) as Hdel.
  unfold run. simpl. rewrite Hpost. simpl. by rewrite Hdel.
Qed.

Lemma run_create_cancel_identity_witness :
  responses scenarioStart
    [CreateBooking aliceClock aliceRequest; CancelBooking (bookingId aliceClock)]
  = [Booked aliceBooking; Canceled (bookingId aliceClock)]
  /\ run scenarioStart
       [CreateBooking aliceClock aliceRequest;
        CancelBooking (bookingId aliceClock)]
     = scenarioStart.
Proof.
  apply (run_create_cancel_identity aliceClock aliceRequest scenarioStart
           aliceBooking aliceBooked).
  - vm_compute. reflexivity.
  - constructor.
  - simpl. apply NoDup_singleton.
Defined.

(** ** More on GET /api/bookings *)

Lemma lowerAscii_idemp c : lowerAscii (lowerAscii c) = lowerAscii c.
Proof. by destruct c as [[] [] [] [] [] [] [] []]. Qed.

Lemma toLowerCase_idemp s : toLowerCase (toLowerCase s) = toLowerCase s.
Proof. induction s as [|c s IH]; simpl; [done|]. by rewrite lowerAscii_idemp, IH. Qed.

(** A string filter is only looked at in lower case. *)
Lemma toLowerCaseOf_filter q :
  toLowerCaseOf (orEmpty (JStr q)) = Some (toLowerCase q).
Proof. unfold orEmpty. simpl. by destruct q. Qed.

Lemma customerMatches_None q b :
  customerMatches q b = None
  <-> truthy (Booking.customerName b) = true /\
      forall s, Booking.customerName b <> JStr s.
Proof.
  unfold customerMatches, orEmpty.
  destruct (truthy (Booking.customerName b)) eqn:Ht; simpl.
  - destruct (Booking.customerName b); simpl; split; try done;
      try (intros _; split; [done|discriminate]).
    intros [_ H]. by destruct (H s).
  - split; [done|]. by intros [? _].
Qed.

Lemma filterThrowing_None {A} (p : A -> option bool) l :
  filterThrowing p l = None <-> exists x, In x l /\ p x = None.
Proof.
  induction l as [|x l IH]; simpl.
  - split; [done|]. by intros (? & [] & _).
  - destruct (p x) as [keep|] eqn:Hx; simpl.
    + destruct (filterThrowing p l) as [r|]; simpl.
      * split; [done|]. intros (y & [<-|Hy] & Hnone); [congruence|].
        destruct IH as [_ IH]. discriminate IH. eauto.
      * split; [|done]. intros _.
        destruct IH as [IH _]. destruct (IH eq_refl) as (y & Hy & Hnone).
        eauto.
    + split; [|done]. intros _. eauto.
Qed.

(** With a string filter and string names the listing is a plain filter. *)
Lemma getBookings_typed q st :
  Forall (fun b => stringOrFalsy (Booking.customerName b)) (bookings st) ->
  getBookings (JStr q) st
  = (BookingList
       (List.filter
          (fun b => includes (toLowerCase q) (toLowerCase (nameOf b)))
          (bookings st)), st).
Proof.
  intros Hnames. unfold getBookings. rewrite toLowerCaseOf_filter.
  assert (filterThrowing (customerMatches (toLowerCase q)) (bookings st)
          = Some (List.filter
                    (fun b => includes (toLowerCase q) (toLowerCase (nameOf b)))
                    (bookings st))) as Hfilter.
  { apply filterThrowing_total. eapply Forall_impl; [exact Hnames|].
    intros b Hb. by apply customerMatches_text. }
  rewrite Hfilter. simpl.
  destruct (toLowerCase q =? "")%string eqn:Hempty; simpl; [|done].
  apply String.eqb_eq in Hempty. rewrite Hempty.
  f_equal. f_equal. symmetry. apply forallb_filter_id.
  apply forallb_forall. intros b _. apply includes_spec.
  by exists "", (toLowerCase (nameOf b)).
Qed.

Lemma getBookings_falsy customer st :
  truthy customer = false ->
  getBookings customer st = (BookingList (bookings st), st).
Proof. intros Hf. unfold getBookings, orEmpty. by rewrite Hf. Qed.

(** X13. The listing raises in two cases and no other: the [customer]
    parameter is truthy and not a string, or it is a non-empty string and
    some booking of the ledger has a truthy customer name that is not a
    string. *)
Theorem getBookings_raises_iff customer st :
  fst (getBookings customer st) = Threw <-> listingRaises customer st.
Proof.
  unfold listingRaises.
  destruct (truthy customer) eqn:Ht; cycle 1.
  { rewrite getBookings_falsy by done. simpl.
    split; [discriminate|].
    intros [[? _]|(q & b & -> & Hq & _)]; [congruence|].
    simpl in Ht. apply negb_false_iff, String.eqb_eq in Ht. done. }
  destruct customer as [| |bb|n|q|items|fields]; try discriminate Ht;
    try (unfold getBookings, orEmpty; rewrite Ht; simpl;
         split; [intros _; left; split; [done|discriminate]|done]).
  assert (toLowerCase q <> "") as Hlq.
  { rewrite toLowerCase_empty. by destruct q. }
  unfold getBookings. rewrite toLowerCaseOf_filter. simpl.
  apply String.eqb_neq in Hlq. rewrite Hlq. simpl.
  destruct (filterThrowing _ _) as [bs|] eqn:Hf; simpl.
  - split; [discriminate|].
    intros [[_ H]|(q' & b & [= <-] & _ & Hb & Hname)]; [by destruct (H q)|].
    assert (filterThrowing (customerMatches (toLowerCase q)) (bookings st)
            = None) as Hnone.
    { apply filterThrowing_None. exists b. split; [done|].
      by apply customerMatches_None. }
    congruence.
  - split; [|done]. intros _. right.
    apply filterThrowing_None in Hf as (b & Hb & Hnone).
    apply customerMatches_None in Hnone. exists q, b.
    repeat split; try tauto. by destruct q.
Qed.

(** X14. The filter is read without regard to letter case: two string
    filters that agree in lower case get the same answer. *)
Theorem getBookings_filter_case q q' st :
  toLowerCase q = toLowerCase q' ->
  getBookings (JStr q) st = getBookings (JStr q') st.
Proof.
  intros Heq. unfold getBookings. by rewrite !toLowerCaseOf_filter, Heq.
Qed.

Lemma getBookings_filter_case_witness :
  getBookings (JStr "ALICE") aliceBooked = getBookings (JStr "alice") aliceBooked.
Proof.
  apply (getBookings_filter_case "ALICE" "alice" aliceBooked). reflexivity.
Defined.

(** X15. A booking can be found under its customer's name, for names and
    filters of ASCII characters: after an accepted request whose customer
    name is such a string, a listing filtered by any such string that the
    name contains, the case of the letters A-Z ignored, answers 200 and has
    the new booking; the names already in the ledger are strings. *)
Theorem booking_listed_by_name now req st b st' name q :
  postBooking now req st = (Booked b, st') ->
  customerName req = JStr name ->
  asciiText name = true ->
  asciiText q = true ->
  Forall (fun x => stringOrFalsy (Booking.customerName x)) (bookings st) ->
  containsIgnoringCase q name ->
  exists bs, getBookings (JStr q) st' = (BookingList bs, st') /\ In b bs.
Proof.
  intros (ids & m & s & Hname & _ & _ & _ & _ & -> & ->)%postBooking_booked
         Hreq _ _ Hnames Hsub.
  set (b := Booking.mk _ _ _ _ _). set (st' := Store _ _).
  assert (nameOf b = name) as Hb.
  { unfold nameOf, textOf, orEmpty. subst b. cbn [Booking.customerName].
    by rewrite Hname, Hreq. }
  eexists. split.
  - apply getBookings_typed. subst st'. cbn [bookings].
    apply Forall_app. split; [done|].
    constructor; [|constructor]. right. exists name. by subst b.
  - apply filter_In. split.
    + subst st'. cbn [bookings]. apply in_or_app. right. by left.
    + rewrite Hb. by apply includes_spec.
Qed.

Lemma booking_listed_by_name_witness :
  exists bs,
    getBookings (JStr "LIC") aliceBooked = (BookingList bs, aliceBooked)
    /\ In aliceBooking bs.
Proof.
  apply (booking_listed_by_name aliceClock aliceRequest scenarioStart
           aliceBooking aliceBooked "Alice" "LIC").
  - vm_compute. reflexivity.
  - reflexivity.
  - reflexivity.
  - reflexivity.
  - constructor.
  - by exists "a", "e".
Defined.

(** ** The seeded catalog in the course of a run *)

Lemma seedSeats_NoDup : NoDup (List.map Seat.id seedSeats).
Proof. apply (bool_decide_unpack _). by vm_compute. Qed.

(** With pairwise distinct seat ids the loop marks every entry whose id is
    requested. *)
Lemma markSeats_NoDup s ids l :
  NoDup (List.map Seat.id l) ->
  markSeats s ids l
  = List.map (fun x => if requested x ids then Seat.withStatus s x else x) l.
Proof.
  revert ids. induction l as [|x r IH]; intros ids Hnd.
  - by rewrite markSeats_nil.
  - simpl in Hnd. apply NoDup_cons in Hnd as [Hx Hr].
    rewrite markSeats_cons, IH by done. simpl. f_equal.
    apply map_ext_in. intros y Hy.
    assert (requested y (others x ids) = requested y ids) as ->; [|done].
    apply eq_true_iff_eq. rewrite !requested_In, others_In.
    split; [tauto|]. intros H. split; [done|]. intros [= Heq].
    apply Hx. rewrite <- Heq. apply list_elem_of_In, in_map, Hy.
Qed.

Lemma seededCatalog_movies iso st seats :
  movies st = [ Movie.mk "m1" "Avengers: Endgame" 180
                  [ Showtime.mk "s1" iso seats ] ] ->
  seatsOf st = seats /\
  forall sid m s,
    findShowtime sid (movies st) = Some (m, s) ->
    sid = JStr "s1" /\ Movie.id m = "m1" /\ s = Showtime.mk "s1" iso seats.
Proof.
  intros Hms. unfold seatsOf. rewrite Hms. split; [done|].
  intros sid m s. simpl.
  destruct (strictEq "s1" sid) eqn:E; [|done].
  intros [= <- <-]. by apply strictEq_true in E.
Qed.

Lemma markShowtime_seeded iso seats f :
  markShowtime (JStr "s1") f
    [ Movie.mk "m1" "Avengers: Endgame" 180 [ Showtime.mk "s1" iso seats ] ]
  = [ Movie.mk "m1" "Avengers: Endgame" 180
        [ Showtime.mk "s1" iso (f seats) ] ].
Proof.
  exact (markShowtime_split (JStr "s1") f []
           (Movie.mk "m1" "Avengers: Endgame" 180
              [Showtime.mk "s1" iso seats])
           [] [] (Showtime.mk "s1" iso seats) []
           (Forall_nil_2 _) eq_refl (Forall_nil_2 _) eq_refl).
Qed.

Lemma freeSeats_seeded iso seats b :
  Booking.movieId b = "m1" ->
  Booking.showtimeId b = JStr "s1" ->
  freeSeats b
    [ Movie.mk "m1" "Avengers: Endgame" 180 [ Showtime.mk "s1" iso seats ] ]
  = [ Movie.mk "m1" "Avengers: Endgame" 180
        [ Showtime.mk "s1" iso
            (markSeats "available" (Booking.seats b) seats) ] ].
Proof. intros Hm Hs. unfold freeSeats. by rewrite Hm, Hs. Qed.

Lemma marked_ids s ids l :
  List.map Seat.id (markSeats s ids l) = List.map Seat.id l.
Proof.
  revert ids. induction l as [|x r IH]; intros ids.
  - by rewrite markSeats_nil.
  - rewrite markSeats_cons. simpl. by rewrite marked_id, IH.
Qed.

(** What a run from the seeded files keeps. *)
Lemma seeded_step_invariant iso st op :
  seededCatalog iso st /\ ledgerPointsIntoCatalog st /\ lockstep st
    /\ consistent st ->
  seededCatalog iso (snd (step st op))
    /\ ledgerPointsIntoCatalog (snd (step st op))
    /\ lockstep (snd (step st op)) /\ consistent (snd (step st op)).
Proof.
  intros ((seats0 & Hms & Hids) & Hledger & Hlock & Hcons).
  split; [|split; [|split; [|by apply step_consistent]]];
    destruct (seededCatalog_movies iso st seats0 Hms) as [Hseats Hres];
    assert (NoDup (List.map Seat.id seats0)) as Hnd
      by (rewrite Hids; apply seedSeats_NoDup);
    destruct op as [now req|id]; simpl.
  (* the catalog, after a booking request *)
  - destruct (postBooking now req st) as [r st'] eqn:Hpost.
    destruct (decide (statusCode r = Some 201)) as [Hok|Hno].
    + destruct r; try discriminate.
      apply postBooking_booked in Hpost
        as (ids & m & s & _ & _ & _ & Hfind & _ & _ & ->).
      destruct (Hres _ _ _ Hfind) as (-> & _ & ->). simpl.
      rewrite Hms, markShowtime_seeded. eexists. split; [reflexivity|].
      by rewrite marked_ids.
    + pose proof (postBooking_refused_no_effect now req st) as H.
      rewrite Hpost in H. simpl in *. rewrite (H Hno). by exists seats0.
  (* the catalog, after a cancellation *)
  - destruct (deleteBooking_cases id st)
      as [[_ ->]|(pre & b & post & Hl & _ & _ & ->)]; simpl;
      [by exists seats0|].
    destruct (Hledger b) as (Hm & Hs & _).
    { rewrite Hl. apply in_or_app. right. by left. }
    rewrite Hms, freeSeats_seeded by done. eexists. split; [reflexivity|].
    by rewrite marked_ids.
  (* the ledger, after a booking request *)
  - destruct (postBooking now req st) as [r st'] eqn:Hpost.
    destruct (decide (statusCode r = Some 201)) as [Hok|Hno].
    + destruct r; try discriminate.
      pose proof (postBooking_booked _ _ _ _ _ Hpost)
        as (ids & m & s & _ & _ & _ & Hfind & Hnil & -> & ->).
      destruct (Hres _ _ _ Hfind) as (Hsid & Hmid & ->). simpl.
      intros b' [Hb'|[<-|[]]]%in_app_or; [by apply Hledger|].
      cbn [Booking.movieId Booking.showtimeId Booking.seats].
      split; [done|split; [done|]].
      intros v Hv. pose proof (unavailable_nil _ _ _ Hnil Hv) as Hav.
      unfold seatUnavailable in Hav. cbn [Showtime.seats] in Hav.
      destruct (List.find (seatIs v) seats0) as [seat|] eqn:Hseat; [|done].
      apply find_some in Hseat as [Hin Hid%strictEq_true].
      exists (Seat.id seat). split; [done|]. rewrite <- Hids. by apply in_map.
    + pose proof (postBooking_refused_no_effect now req st) as H.
      rewrite Hpost in H. simpl in *. by rewrite (H Hno).
  (* the ledger, after a cancellation *)
  - destruct (deleteBooking_cases id st)
      as [[_ ->]|(pre & b & post & Hl & _ & _ & ->)]; simpl; [done|].
    intros b' Hb'. apply Hledger. rewrite Hl.
    apply in_app_or in Hb' as [?|?]; apply in_or_app; [by left|].
    right. by right.
  (* statuses, after a booking request *)
  - destruct (postBooking now req st) as [r st'] eqn:Hpost.
    destruct (decide (statusCode r = Some 201)) as [Hok|Hno].
    + destruct r; try discriminate.
      pose proof (postBooking_booked _ _ _ _ _ Hpost)
        as (ids & m & s & _ & _ & _ & Hfind & Hnil & -> & ->).
      destruct (Hres _ _ _ Hfind) as (Hsid & Hmid & ->). simpl.
      set (bn := Booking.mk _ _ _ _ _).
      intros seat'. unfold seatsOf, heldBy. cbn [movies bookings].
      rewrite Hsid, Hms, markShowtime_seeded. cbn.
      rewrite markSeats_NoDup by done.
      intros (seat & <- & Hin)%in_map_iff.
      destruct (requested seat ids) eqn:Hreq.
      * left. split; [done|]. exists bn. split.
        -- apply in_or_app. right. by left.
        -- cbn. by apply requested_In.
      * rewrite <- Hseats in Hin.
        destruct (Hlock seat Hin) as [[Hst (b0 & Hb0 & Hheld)]|[Hst Hfree]].
        -- left. split; [done|]. exists b0. split; [|done].
           apply in_or_app. by left.
        -- right. split; [done|].
           intros (b0 & [Hb0|[<-|[]]]%in_app_or & Hheld).
           ++ apply Hfree. by exists b0.
           ++ cbn in Hheld. apply requested_In in Hheld. congruence.
    + pose proof (postBooking_refused_no_effect now req st) as H.
      rewrite Hpost in H. simpl in *. by rewrite (H Hno).
  (* statuses, after a cancellation *)
  - destruct (deleteBooking_cases id st)
      as [[_ ->]|(pre & b & post & Hl & _ & _ & ->)]; simpl; [done|].
    assert (In b (bookings st)) as Hb.
    { rewrite Hl. apply in_or_app. right. by left. }
    destruct (Hledger b Hb) as (Hm & Hs & _).
    intros seat'. unfold seatsOf, heldBy. cbn [movies bookings].
    rewrite Hms, freeSeats_seeded by done. cbn.
    rewrite markSeats_NoDup by done.
    intros (seat & <- & Hin)%in_map_iff.
    assert (bookings st !! length pre = Some b) as Hpos.
    { rewrite Hl. by apply list_lookup_middle. }
    destruct (requested seat (Booking.seats b)) eqn:Hreq.
    + right. split; [done|]. cbn. apply requested_In in Hreq.
      intros (b0 & Hb0 & Hheld).
      apply list_elem_of_In, list_elem_of_lookup in Hb0 as [i Hi].
      apply (lookup_removed pre b post) in Hi as (i' & Hi & Hne & _).
      rewrite <- Hl in Hi.
      assert (In b0 (bookings st)) as Hb0.
      { apply list_elem_of_In, list_elem_of_lookup. eauto. }
      destruct (Hledger b0 Hb0) as (_ & Hs0 & _).
      destruct Hcons as [Hndb _].
      apply (Hndb i' (length pre) b0 b (JStr (Seat.id seat))); try done.
      congruence.
    + rewrite <- Hseats in Hin.
      destruct (Hlock seat Hin) as [[Hst (b0 & Hb0 & Hheld)]|[Hst Hfree]].
      * left. split; [done|]. exists b0. split; [|done].
        rewrite Hl in Hb0.
        apply in_app_or in Hb0 as [?|[<-|?]]; apply in_or_app; auto.
        apply requested_In in Hheld. congruence.
      * right. split; [done|]. intros (b0 & Hb0 & Hheld). apply Hfree.
        exists b0. split; [|done]. rewrite Hl.
        apply in_app_or in Hb0 as [?|?]; apply in_or_app; [by left|].
        right. by right.
Qed.

Lemma seeded_run_invariant iso ops :
  seededCatalog iso (run (seeded iso) ops)
  /\ ledgerPointsIntoCatalog (run (seeded iso) ops)
  /\ lockstep (run (seeded iso) ops)
  /\ consistent (run (seeded iso) ops).
Proof.
  assert (forall st,
            seededCatalog iso st /\ ledgerPointsIntoCatalog st /\ lockstep st
              /\ consistent st ->
            seededCatalog iso (run st ops)
              /\ ledgerPointsIntoCatalog (run st ops)
              /\ lockstep (run st ops) /\ consistent (run st ops)) as Hrun.
  { unfold run. induction ops as [|op ops IH]; intros st Hst; [done|].
    simpl. apply IH. by apply seeded_step_invariant. }
  apply Hrun. split; [|split; [|split]].
  - by exists seedSeats.
  - intros b [].
  - intros seat Hin. right. split.
    + change (seatsOf (seeded iso)) with seedSeats in Hin.
      unfold seedSeats in Hin.
      by apply in_map_iff in Hin as (i & <- & _).
    + by intros (b & [] & _).
  - apply seeded_consistent.
Qed.

(** X16. No run of bookings and cancellations from the seeded files
    resizes or renames the catalog: it stays one movie [m1] with one
    showtime [s1] at the seeded time, whose seats carry the ids A1..A36 in
    that order. *)
Theorem seeded_run_catalog_fixed iso ops :
  seededCatalog iso (run (seeded iso) ops).
Proof. apply seeded_run_invariant. Qed.

(** X17. In every store reached from the seeded files each seat of the
    showtime is either [booked] and in the seat list of a booking of the
    ledger, or [available] and in none: seat statuses and ledger never
    disagree, and no third status appears. *)
Theorem seeded_run_lockstep iso ops : lockstep (run (seeded iso) ops).
Proof. apply seeded_run_invariant. Qed.

(** X18. In every store reached from the seeded files each booking of the
    ledger has movie id [m1], showtime id [s1], and only seat ids that are
    strings naming seats of the seeded seat map. *)
Theorem seeded_run_ledger_points_into_catalog iso ops :
  ledgerPointsIntoCatalog (run (seeded iso) ops).
Proof. apply seeded_run_invariant. Qed.

(** X7. In every store reached by a serial run from the seeded files, as
    long as a booking is in the ledger, a request for showtime [s1] with a
    truthy customer name that names one of the seats of that booking is
    refused with 409, that seat among the reported ones, and changes
    nothing. *)
Theorem held_seat_request_refused iso ops now req b ids v :
  In b (bookings (run (seeded iso) ops)) ->
  In v (Booking.seats b) ->
  truthy (customerName req) = true ->
  showtimeId req = JStr "s1" ->
  seats req = JArr ids ->
  In v ids ->
  exists busy,
    postBooking now req (run (seeded iso) ops)
    = (SeatsUnavailable busy, run (seeded iso) ops)
    /\ In v busy.
Proof.
  intros Hb Hv Hname Hsid Hseats Hin.
  destruct (seeded_run_invariant iso ops)
    as ((seats0 & Hms & _) & Hledger & _ & [_ Hheld]).
  set (st := run (seeded iso) ops) in *.
  destruct (Hledger b Hb) as (_ & Hbsid & _).
  assert (findShowtime (showtimeId req) (movies st)
          = Some (Movie.mk "m1" "Avengers: Endgame" 180
                    [Showtime.mk "s1" iso seats0],
                  Showtime.mk "s1" iso seats0)) as Hfind.
  { by rewrite Hsid, Hms. }
  assert (seatUnavailable (Showtime.mk "s1" iso seats0) v = true) as Htaken.
  { apply (Hheld b _ v Hb); [|done].
    rewrite Hbsid, <- Hsid. by apply findShowtime_resolve in Hfind. }
  assert (truthy (showtimeId req) = true) as Htsid by (by rewrite Hsid).
  pose proof (postBooking_checked now req st ids _ _ Hname Htsid Hseats Hfind)
    as Hrep.
  assert (In v (unavailable ids (Showtime.mk "s1" iso seats0))) as Hbusy.
  { by apply filter_In. }
  destruct (unavailable ids _) as [|w busy]; [done|].
  exists (w :: busy). done.
Qed.

Lemma held_seat_request_refused_witness :
  let ops :=
    [ CreateBooking aliceClock aliceRequest;
      CreateBooking bobClock
        (BookingRequest (JStr "Bob") (JStr "s1") (JArr [JStr "A3"])) ] in
  exists busy,
    postBooking bobClock bobRequest (run (seeded scenarioIso) ops)
    = (SeatsUnavailable busy, run (seeded scenarioIso) ops)
    /\ In (JStr "A2") busy.
Proof.
  intros ops.
  apply (held_seat_request_refused scenarioIso ops bobClock bobRequest
           aliceBooking [JStr "A2"; JStr "A3"] (JStr "A2")).
  - vm_compute. left. reflexivity.
  - simpl. auto.
  - reflexivity.
  - reflexivity.
  - reflexivity.
  - simpl. auto.
Defined.

(** ** Start-up *)

(** X19. [ensureFiles] never overwrites: a file that exists keeps its
    contents, a missing one is created (the seeded catalog, the empty
    ledger), afterwards both are there, and running it again, at any later
    time, changes nothing. *)
Theorem ensureFiles_keeps_data iso fs :
  (forall ms, moviesFile fs = Some ms ->
              moviesFile (ensureFiles iso fs) = Some ms)
  /\ (forall bs, bookingsFile fs = Some bs ->
                 bookingsFile (ensureFiles iso fs) = Some bs)
  /\ (moviesFile fs = None ->
      moviesFile (ensureFiles iso fs) = Some (seedMovies iso))
  /\ (bookingsFile fs = None -> bookingsFile (ensureFiles iso fs) = Some [])
  /\ is_Some (storeOf (ensureFiles iso fs))
  /\ forall iso', ensureFiles iso' (ensureFiles iso fs) = ensureFiles iso fs.
Proof.
  destruct fs as [[ms|] [bs|]]; unfold ensureFiles, storeOf; simpl;
    repeat split; try done; try congruence; eauto.
Qed.

(** ** Any catalog, and the empty seat list *)

(** X20. The engine's invariant does not depend on the seeded catalog:
    from any store in which no seat is held twice and every held seat is
    not available, whatever its movies and showtimes, every serial run of
    bookings and cancellations ends in such a store. *)
Theorem run_keeps_consistency st ops :
  consistent st ->
  noDoubleBooking (run st ops) /\ heldSeatsTaken (run st ops).
Proof. intros Hst. by apply run_consistent. Qed.

Lemma run_keeps_consistency_witness :
  let st :=
    Store [ Movie.mk "m1" "First" 90
              [ Showtime.mk "s1" scenarioIso [Seat.mk "A1" "available"] ];
            Movie.mk "m2" "Second" 95
              [ Showtime.mk "s1" scenarioIso [Seat.mk "A1" "available"];
                Showtime.mk "s2" scenarioIso [Seat.mk "A1" "available"] ] ]
          [] in
  let ops :=
    [ CreateBooking aliceClock
        (BookingRequest (JStr "Alice") (JStr "s2") (JArr [JStr "A1"]));
      CreateBooking bobClock
        (BookingRequest (JStr "Bob") (JStr "s1") (JArr [JStr "A1"]));
      CancelBooking (bookingId aliceClock) ] in
  noDoubleBooking (run st ops) /\ heldSeatsTaken (run st ops).
Proof.
  intros st ops. apply (run_keeps_consistency st ops). split.
  - intros i j b1 b2 v _ H. simpl in H. by rewrite lookup_nil in H.
  - intros b sh v H. simpl in H. destruct H.
Defined.

Lemma updateFirst_id {A} (p : A -> bool) (f : A -> A) (l : list A) :
  (forall x, f x = x) -> updateFirst p f l = l.
Proof.
  intros Hf. induction l as [|x l IH]; simpl; [done|].
  destruct (p x); by rewrite ?Hf, ?IH.
Qed.

(** X21. A request with an empty seat list that passes validation and
    whose showtime resolves is accepted: the answer is 201, the catalog is
    as it was, and the ledger gains a booking that holds no seat. *)
Theorem postBooking_empty_seat_list now req st movie showtime :
  truthy (customerName req) = true ->
  truthy (showtimeId req) = true ->
  seats req = JArr [] ->
  findShowtime (showtimeId req) (movies st) = Some (movie, showtime) ->
  exists b,
    postBooking now req st = (Booked b, Store (movies st) (bookings st ++ [b]))
    /\ Booking.seats b = [].
Proof.
  intros Hname Hsid Hseats Hfind.
  destruct (postBooking_cases now req st)
    as [[Hrej _]|(ids & _ & _ & Hids & [[Hnone _]|(m & s & Hms & Hcase)])].
  - unfold rejectedAsInvalid in Hrej. rewrite Hname, Hsid, Hseats in Hrej.
    simpl in Hrej. destruct Hrej as [?|[?|?]]; discriminate.
  - congruence.
  - rewrite Hseats in Hids. injection Hids as <-.
    destruct Hcase as [[Hne _]|[_ ->]]; [done|].
    exists (Booking.mk (bookingId now) (customerName req) (Movie.id m)
                       (showtimeId req) []).
    split; [|done]. f_equal. f_equal.
    unfold markShowtime. apply updateFirst_id. intros [mi mt md shows].
    unfold Movie.withShowtimes. simpl. f_equal.
    apply updateFirst_id. by intros [si stime sseats].
Qed.

Lemma postBooking_empty_seat_list_witness :
  exists b,
    postBooking aliceClock
      (BookingRequest (JStr "Alice") (JStr "s1") (JArr [])) aliceBooked
    = (Booked b, Store (movies aliceBooked) (bookings aliceBooked ++ [b]))
    /\ Booking.seats b = [].
Proof.
  apply (postBooking_empty_seat_list aliceClock
           (BookingRequest (JStr "Alice") (JStr "s1") (JArr [])) aliceBooked
           (Movie.mk "m1" "Avengers: Endgame" 180
              [Showtime.mk "s1" scenarioIso
                 (markSeats "booked" [JStr "A1"; JStr "A2"] seedSeats)])
           (Showtime.mk "s1" scenarioIso
              (markSeats "booked" [JStr "A1"; JStr "A2"] seedSeats)));
    reflexivity.
Defined.

(** ** Cancellation under drift and equal ids *)

(** C7, at the failing input.  The ledger holds Alice's and Carol's
    bookings, made within one millisecond and so under one id, and showtime
    s1 is gone from the catalog.  Carol's booking is in the ledger and its
    showing does not resolve.  The cancellation of its id is answered 200
    and leaves the catalog alone, but the entry that leaves the ledger is
    Alice's, the first with that id: Carol's booking is still there. *)
Theorem cancel_under_drift_removes_other_booking :
  bookings driftedStore = [aliceBooking; carolBooking]
  /\ resolveShowtime (Booking.showtimeId carolBooking) (movies driftedStore)
     = None
  /\ deleteBooking (Booking.id carolBooking) driftedStore
     = (Canceled (Booking.id carolBooking),
        Store (movies driftedStore) [carolBooking])
  /\ In carolBooking
        (bookings (snd (deleteBooking (Booking.id carolBooking) driftedStore))).
Proof. vm_compute. repeat split. left. reflexivity. Qed.
